(** * tidb-gateway: the MySQL wire codec, the framed connection and the
      routing step of the session handler, embedded in Rocq.

    The development follows the Go sources:
    - [mysql/util.go], the wire buffer codec ([Buffer]) and
      [mysql/packet_handshake_response.go];
    - [mysql/conn.go] and [mysql/compress.go] (framed connection and
      compression layer), together with the earlier revision of [conn.go]
      that still carries the [accumulatedLength] check;
    - the [gateway] package: [BackendConfigs.Find], [Gateway.getBackendAddr]
      and the part of [Gateway.handleConn] that rewrites the handshake
      response;
    - what the routing step calls in the Go library: [strings.SplitN],
      [strings.EqualFold] with [utf8.DecodeRuneInString] and the loop over
      [unicode.SimpleFold], and [regexp.MatchString] on the one pattern
      used.  The case tables of [unicode] are a parameter.

    Conventions.  A Go [byte] is a [Z] in [0, 256); [uintN] values are [Z]
    with the wrap-around written where the code converts or increments.  A Go
    [string] is a [string] (a sequence of 8-bit characters); a [[]byte] is a
    [list Z]. *)

From Stdlib Require Import ZArith Lia Ascii String.
From stdpp Require Import base tactics option list gmap strings.

Local Open Scope Z_scope.

(** ** Bytes and fixed-width integers *)

(** The Go conversion [byte(n)]. *)
Definition to_byte (n : Z) : Z := Z.land n 255.
(** The Go conversions [uint16(n)] and [uint32(n)]. *)
Definition to_uint16 (n : Z) : Z := Z.land n 65535.
Definition to_uint32 (n : Z) : Z := Z.land n 4294967295.

Definition is_byte (b : Z) : Prop := 0 <= b < 256.

(** [len(s)] as an integer. *)
Definition len {A} (l : list A) : Z := Z.of_nat (length l).

(** ** mysql/util.go *)

Definition readLen3 (b : list Z) : Z :=
  Z.lor (Z.lor (nth 0 b 0) (Z.shiftl (nth 1 b 0) 8)) (Z.shiftl (nth 2 b 0) 16).

(** [writeLen3] fills a three-byte slice; the model returns the three bytes. *)
Definition writeLen3 (n : Z) : list Z :=
  [to_byte n; to_byte (Z.shiftr n 8); to_byte (Z.shiftr n 16)].

(** ** Errors *)

Inductive error : Type :=
| EOF
| ErrUnexpectedEOF
| ErrBadConn
| errNetPacketTooLarge
| ErrMalformPacket
| ErrInvalidSequence (got want : Z)
| ErrUncompressedLength (got want : Z)
| ErrZlibHeader
| ErrInvalidLenencInt
| PanicSliceBounds   (* a run-time panic (slice or index out of range) *)
| OutOfFuel.         (* a loop bound of the model was hit *)

(** ** The wire buffer codec ([Buffer] over [bytes.Buffer])

    The buffer is the sequence of unread bytes: writes append at the end,
    reads consume from the front.  A read is a state transformer that
    returns a value or an error together with the buffer it leaves. *)

Module Buffer.

Definition Buffer := list Z.

Definition M (A : Type) : Type := Buffer -> (error + A) * Buffer.

Definition ret {A} (a : A) : M A := fun b => (inr a, b).
Definition fail {A} (e : error) : M A := fun b => (inl e, b).
Definition bind {A B} (m : M A) (k : A -> M B) : M B :=
  fun b => match m b with
           | (inl e, b') => (inl e, b')
           | (inr a, b') => k a b'
           end.

Notation "'let*' x ':=' m 'in' k" := (bind m (fun x => k))
  (at level 10, x name, m at level 100, k at level 200).

Definition newBuffer (data : list Z) : Buffer := data.

Definition WriteByte (b : Buffer) (by_ : Z) : Buffer := b ++ [by_].

Definition ReadByte : M Z :=
  fun b => match b with
           | [] => (inl EOF, [])
           | x :: b' => (inr x, b')
           end.

Definition WriteBytes (b : Buffer) (bys : list Z) : Buffer := b ++ bys.

(** [bytes.Buffer.Next(n)] hands out at most [n] bytes and advances past
    them; [ReadBytes] fails when fewer than [n] came back. *)
Definition ReadBytes (n : nat) : M (list Z) :=
  fun b => let data := take n b in
           if decide (length data = n) then (inr data, drop n b)
           else (inl EOF, drop n b).

(** [binary.LittleEndian]. *)
Definition PutUint16 (v : Z) : list Z :=
  [to_byte v; to_byte (Z.shiftr v 8)].
Definition Uint16 (b : list Z) : Z :=
  Z.lor (nth 0 b 0) (Z.shiftl (nth 1 b 0) 8).

Definition PutUint32 (v : Z) : list Z :=
  [to_byte v; to_byte (Z.shiftr v 8); to_byte (Z.shiftr v 16);
   to_byte (Z.shiftr v 24)].
Definition Uint32 (b : list Z) : Z :=
  Z.lor (Z.lor (Z.lor (nth 0 b 0) (Z.shiftl (nth 1 b 0) 8))
               (Z.shiftl (nth 2 b 0) 16))
        (Z.shiftl (nth 3 b 0) 24).

Definition PutUint64 (v : Z) : list Z :=
  [to_byte v; to_byte (Z.shiftr v 8); to_byte (Z.shiftr v 16);
   to_byte (Z.shiftr v 24); to_byte (Z.shiftr v 32); to_byte (Z.shiftr v 40);
   to_byte (Z.shiftr v 48); to_byte (Z.shiftr v 56)].
Definition Uint64 (b : list Z) : Z :=
  Z.lor (Z.lor (Z.lor (Z.lor (Z.lor (Z.lor (Z.lor
    (nth 0 b 0)
    (Z.shiftl (nth 1 b 0) 8))
    (Z.shiftl (nth 2 b 0) 16))
    (Z.shiftl (nth 3 b 0) 24))
    (Z.shiftl (nth 4 b 0) 32))
    (Z.shiftl (nth 5 b 0) 40))
    (Z.shiftl (nth 6 b 0) 48))
    (Z.shiftl (nth 7 b 0) 56).

Definition WriteUint32 (b : Buffer) (n : Z) : Buffer := WriteBytes b (PutUint32 n).
Definition ReadUint32 : M Z := let* data := ReadBytes 4 in ret (Uint32 data).

Definition WriteUint16 (b : Buffer) (n : Z) : Buffer := WriteBytes b (PutUint16 n).
Definition ReadUint16 : M Z := let* data := ReadBytes 2 in ret (Uint16 data).

Definition WriteUint24 (b : Buffer) (n : Z) : Buffer :=
  WriteByte (WriteUint16 b (to_uint16 (Z.land n 65535))) (to_byte (Z.shiftr n 16)).
Definition ReadUint24 : M Z :=
  let* u16 := ReadUint16 in
  let* b3 := ReadByte in
  ret (Z.lor u16 (Z.shiftl b3 16)).

Definition WriteUint64 (b : Buffer) (n : Z) : Buffer := WriteBytes b (PutUint64 n).
Definition ReadUint64 : M Z := let* data := ReadBytes 8 in ret (Uint64 data).

(** [n] is a [uint64]. *)
Definition WriteLenencInt (b : Buffer) (n : Z) : Buffer :=
  if n <? 251 then WriteByte b (to_byte n)
  else if (251 <=? n) && (n <? 2 ^ 16) then
    WriteUint16 (WriteByte b 252) (to_uint16 n)
  else if (2 ^ 16 <=? n) && (n <? 2 ^ 24) then
    WriteUint24 (WriteByte b 253) (to_uint32 n)
  else WriteUint64 (WriteByte b 254) n.

Definition ReadLenencInt : M Z :=
  let* b1 := ReadByte in
  if b1 <? 252 then ret b1
  else if b1 =? 252 then ReadUint16
  else if b1 =? 253 then ReadUint24
  else if b1 =? 254 then ReadUint64
  else fail ErrInvalidLenencInt.

End Buffer.

(** ** Constants of [mysql/conn.go] and [mysql/compress.go] *)

Definition MaxPayloadLen : Z := 2 ^ 24 - 1.

Definition SeqResetNone : Z := 0.
Definition SeqResetOnRead : Z := 1.
Definition SeqResetOnWrite : Z := 2.
Definition SeqResetBoth : Z := 3.

Definition minCompressLen : Z := 128.
Definition maxBufferLen : Z := 2 ^ 23 - 1.

(** [x &= ^flag] on a [uint8]. *)
Definition clear_flag8 (x flag : Z) : Z := Z.land x (Z.lxor flag 255).
(** [x++] on a [uint8]. *)
Definition incr8 (x : Z) : Z := (x + 1) mod 256.

(** ** Readers and writers

    [io.Reader] and [WriteFlusher] are interfaces in the source.  The
    operations the connection code performs on them are collected in
    [StreamOps]: [sRead s n] is the common core of [io.ReadFull],
    [io.CopyN] and [bytes.Buffer.ReadFrom] on a reader limited to [n] bytes,
    namely calling [Read] until [n] bytes came back or a call reported an
    error, and returns the bytes obtained with that error ([EOF] at a clean
    end of input). *)

Record StreamOps (U : Type) : Type := {
  sRead : U -> nat -> U * (list Z * option error);
  sWrite : U -> list Z -> U * (Z * option error);
  sFlush : U -> U * option error
}.
Arguments sRead {U} _ _ _.
Arguments sWrite {U} _ _ _.
Arguments sFlush {U} _ _.

(** [compress/zlib] is outside the repository: the deflater maps the bytes
    written to a [zlib.Writer] (until [Close]) to the stream it emits, and
    the inflater maps a frame payload to the bytes [io.Copy] obtains from a
    [zlib.Reader] over it ([None] when [zlib.NewReader] rejects the
    header). *)
Class Zlib : Type := {
  deflate : list Z -> list Z;
  inflate : list Z -> option (list Z)
}.

(** ** mysql/compress.go *)

Module Compressor.

(** The struct's [r] and [w] are the two faces of one underlying object;
    [rw] holds its state. *)
Record Compressor (U : Type) : Type := mk {
  rw : U;
  sequence : Z;
  seqreset : Z;
  readBuffer : list Z;   (* decompressed data to be read *)
  writeBuffer : list Z;  (* bytes to be compressed *)
  flushBuffer : list Z   (* compressed data to be sent *)
}.
Arguments mk {U} _ _ _ _ _ _.
Arguments rw {U} _.
Arguments sequence {U} _.
Arguments seqreset {U} _.
Arguments readBuffer {U} _.
Arguments writeBuffer {U} _.
Arguments flushBuffer {U} _.

Section Methods.
Context {U : Type} (ops : StreamOps U) {zlib : Zlib}.

Definition set_rw (c : Compressor U) (u : U) : Compressor U :=
  mk u (sequence c) (seqreset c) (readBuffer c) (writeBuffer c) (flushBuffer c).
Definition set_readBuffer (c : Compressor U) (b : list Z) : Compressor U :=
  mk (rw c) (sequence c) (seqreset c) b (writeBuffer c) (flushBuffer c).
Definition set_writeBuffer (c : Compressor U) (b : list Z) : Compressor U :=
  mk (rw c) (sequence c) (seqreset c) (readBuffer c) b (flushBuffer c).
Definition set_flushBuffer (c : Compressor U) (b : list Z) : Compressor U :=
  mk (rw c) (sequence c) (seqreset c) (readBuffer c) (writeBuffer c) b.
Definition set_sequence (c : Compressor U) (n : Z) : Compressor U :=
  mk (rw c) n (seqreset c) (readBuffer c) (writeBuffer c) (flushBuffer c).
Definition set_seqreset (c : Compressor U) (n : Z) : Compressor U :=
  mk (rw c) (sequence c) n (readBuffer c) (writeBuffer c) (flushBuffer c).

Definition NewCompressor (u : U) : Compressor U := mk u 0 0 [] [] [].

(** The [seqreset] test that opens [loadNextTrunk] and [Flush]. *)
Definition apply_reset (flag : Z) (c : Compressor U) : Compressor U :=
  if decide (Z.land (seqreset c) flag <> 0)
  then set_sequence (set_seqreset c (clear_flag8 (seqreset c) flag)) 0
  else c.

Definition loadNextTrunk (c : Compressor U) : Compressor U * option error :=
  let c := set_readBuffer c [] in
  let '(u, (head, err)) := sRead ops (rw c) 7 in
  let c := set_rw c u in
  if decide (length head <> 7%nat) then
    (c, Some (match err with
              | Some EOF => if decide (head = []) then EOF else ErrUnexpectedEOF
              | Some e => e
              | None => ErrUnexpectedEOF
              end))
  else
    let c := apply_reset SeqResetOnRead c in
    let payloadLen := readLen3 (take 3 head) in
    let sequence_ := nth 3 head 0 in
    let uncompressedLen := readLen3 (drop 4 head) in
    if decide (sequence_ <> sequence c) then
      (c, Some (ErrInvalidSequence sequence_ (sequence c)))
    else if decide (uncompressedLen = 0) then
      (* uncompressed payload *)
      let '(u, (data, err)) := sRead ops (rw c) (Z.to_nat payloadLen) in
      let c := set_readBuffer (set_rw c u) data in
      if decide (len data <> payloadLen) then
        (c, Some (match err with Some e => e | None => EOF end))
      else (set_sequence c (incr8 (sequence c)), None)
    else
      let '(u, (data, _)) := sRead ops (rw c) (Z.to_nat payloadLen) in
      let c := set_rw c u in
      match inflate data with
      | None => (c, Some ErrZlibHeader)
      | Some plain =>
          let c := set_readBuffer c plain in
          if decide (len plain <> uncompressedLen) then
            (c, Some (ErrUncompressedLength (len plain) uncompressedLen))
          else (set_sequence c (incr8 (sequence c)), None)
      end.

(** [Read] as the callers drive it: drain [readBuffer], load the next frame
    when it is empty, until [n] bytes were delivered or a load failed. *)
Fixpoint Read_loop (fuel : nat) (c : Compressor U) (n : nat) (acc : list Z)
  : Compressor U * (list Z * option error) :=
  match n with
  | O => (c, (acc, None))
  | S _ =>
      match fuel with
      | O => (c, (acc, Some OutOfFuel))
      | S fuel' =>
          match readBuffer c with
          | _ :: _ =>
              let k := Nat.min (length (readBuffer c)) n in
              Read_loop fuel'
                (set_readBuffer c (drop k (readBuffer c)))
                (n - k)%nat (acc ++ take k (readBuffer c))
          | [] =>
              match loadNextTrunk c with
              | (c', Some e) => (c', (acc, Some e))
              | (c', None) => Read_loop fuel' c' n acc
              end
          end
      end
  end.

Definition Flush (c : Compressor U) : Compressor U * option error :=
  let c := apply_reset SeqResetOnWrite c in
  let '(c, head, payload) :=
    if len (writeBuffer c) <? minCompressLen then
      (* write without compression *)
      (c,
       writeLen3 (len (writeBuffer c)) ++ [sequence c] ++ writeLen3 0,
       writeBuffer c)
    else
      (* with compression *)
      let c := set_flushBuffer c (flushBuffer c ++ deflate (writeBuffer c)) in
      (c,
       writeLen3 (len (flushBuffer c)) ++ [sequence c]
         ++ writeLen3 (len (writeBuffer c)),
       flushBuffer c) in
  let '(u, (n, _)) := sWrite ops (rw c) head in
  let c := set_rw c u in
  if decide (n <> 7) then (c, Some ErrBadConn)
  else
    let '(u, (n, _)) := sWrite ops (rw c) payload in
    let c := set_rw c u in
    if decide (n <> len payload) then (c, Some ErrBadConn)
    else
      let c := set_sequence c (incr8 (sequence c)) in
      let c := set_writeBuffer c [] in
      let c := set_flushBuffer c [] in
      let '(u, err) := sFlush ops (rw c) in
      (set_rw c u, err).

(** The loop of [Write]; the result is the pair [(n, err)] it returns. *)
Fixpoint Write_loop (fuel : nat) (c : Compressor U) (p : list Z)
  : Compressor U * (Z * option error) :=
  match p with
  | [] => (c, (0, None))
  | _ :: _ =>
      match fuel with
      | O => (c, (0, Some OutOfFuel))
      | S fuel' =>
          let capacity := maxBufferLen - len (writeBuffer c) in
          if capacity >=? len p then
            (set_writeBuffer c (writeBuffer c ++ p), (len p, None))
          else if capacity <? 0 then (c, (0, Some PanicSliceBounds))
          else
            let c := set_writeBuffer c
                       (writeBuffer c ++ take (Z.to_nat capacity) p) in
            match Flush c with
            | (c, Some err) => (c, (capacity, Some err))
            | (c, None) => Write_loop fuel' c (drop (Z.to_nat capacity) p)
            end
      end
  end.

Definition Write (c : Compressor U) (p : list Z)
  : Compressor U * (Z * option error) :=
  Write_loop (S (S (length p))) c p.

Definition SetResetOption (c : Compressor U) (opt : Z) : Compressor U :=
  set_seqreset c opt.

End Methods.
End Compressor.

(** ** Transports and buffered I/O

    A [net.Conn] is seen through the bytes its peer will still deliver and
    the bytes handed to it so far.  [bufio.NewReaderSize] and
    [bufio.NewWriterSize] over a transport are modelled together: [rd] are
    the bytes the reader will deliver (buffered or still in the transport),
    [wbuf] the bytes written but not flushed, [out] the bytes passed on to
    the transport.  A [bufio.Writer] may pass bytes on before [Flush] when
    its buffer fills; this does not change [out ++ wbuf], the byte sequence
    the peer receives, which is what the statements below speak about. *)

Record NetConn : Type := { incoming : list Z; outgoing : list Z }.

Record bufio : Type := mkBufio { rd : list Z; wbuf : list Z; out : list Z }.

Definition NewBufio (conn : NetConn) : bufio :=
  mkBufio (incoming conn) [] (outgoing conn).

Definition written (b : bufio) : list Z := out b ++ wbuf b.

Definition bufio_ops : StreamOps bufio := {|
  sRead b n :=
    (mkBufio (drop n (rd b)) (wbuf b) (out b),
     (take n (rd b),
      if decide (length (rd b) < n)%nat then Some EOF else None));
  sWrite b p := (mkBufio (rd b) (wbuf b ++ p) (out b), (len p, None));
  sFlush b := (mkBufio (rd b) [] (out b ++ wbuf b), None)
|}.

(** What [Conn.r] / [Conn.w] can point to: the buffered pair made by
    [NewConn] or [SetRawConn], or a compressor, which in turn wraps whatever
    the connection was using when [EnableCompression] was called. *)
#[warnings="-register-all"]
Inductive Stream : Type :=
| Bufio (b : bufio)
| Compressed (c : Compressor.Compressor Stream).

Fixpoint depth (s : Stream) : nat :=
  match s with
  | Bufio _ => O
  | Compressed c => S (depth (Compressor.rw c))
  end.

(** Bytes that reads on [s] can still deliver, an upper bound used only to
    bound the read loops. *)
Fixpoint pending (s : Stream) : nat :=
  match s with
  | Bufio b => length (rd b)
  | Compressed c => (length (Compressor.readBuffer c) + pending (Compressor.rw c))%nat
  end.

(** The bytes that reached the buffered writer at the bottom of [s], in
    order: what the peer receives once they are flushed. *)
Fixpoint stream_wire (s : Stream) : list Z :=
  match s with
  | Bufio b => written b
  | Compressed c => stream_wire (Compressor.rw c)
  end.

(** One wire packet: [u24 payload-length | u8 sequence | payload]. *)
Definition wire_packet (seq : Z) (payload : list Z) : list Z :=
  writeLen3 (len payload) ++ [seq] ++ payload.

(** [k] wire packets carrying the first [k] chunks of [MaxPayloadLen] bytes
    of [data], numbered from [seq]. *)
Fixpoint full_chunks (k : nat) (seq : Z) (data : list Z) : list Z :=
  match k with
  | O => []
  | S k' =>
      wire_packet seq (take (Z.to_nat MaxPayloadLen) data)
        ++ full_chunks k' (incr8 seq) (drop (Z.to_nat MaxPayloadLen) data)
  end.

(** One frame of the compression layer:
    [u24 payload-length | u8 sequence | u24 uncompressed-length | payload]. *)
Definition compressed_frame (seq uncompressedLen : Z) (payload : list Z) : list Z :=
  writeLen3 (len payload) ++ [seq] ++ writeLen3 uncompressedLen ++ payload.

(** The uncompressed-length field of the frame that starts [bytes]. *)
Definition frame_uncompressedLen (bytes : list Z) : Z :=
  readLen3 (take 3 (drop 4 bytes)).

(** A stand-in codec for closed examples: it stores the bytes as they are. *)
Definition zlib_stored : Zlib := {| deflate l := l; inflate l := Some l |}.

Section StreamOps.
Context {zlib : Zlib}.

(** Method dispatch on a stream nested at most [d] compressors deep. *)
Fixpoint stream_ops_at (d : nat) : StreamOps Stream :=
  match d with
  | O => {|
      sRead s n :=
        match s with
        | Bufio b => let '(b, r) := sRead bufio_ops b n in (Bufio b, r)
        | Compressed _ => (s, ([], Some OutOfFuel))
        end;
      sWrite s p :=
        match s with
        | Bufio b => let '(b, r) := sWrite bufio_ops b p in (Bufio b, r)
        | Compressed _ => (s, (0, Some OutOfFuel))
        end;
      sFlush s :=
        match s with
        | Bufio b => let '(b, r) := sFlush bufio_ops b in (Bufio b, r)
        | Compressed _ => (s, Some OutOfFuel)
        end |}
  | S d' => {|
      sRead s n :=
        match s with
        | Bufio b => let '(b, r) := sRead bufio_ops b n in (Bufio b, r)
        | Compressed c =>
            let '(c, r) :=
              Compressor.Read_loop (stream_ops_at d')
                (2 * pending s + 2) c n [] in
            (Compressed c, r)
        end;
      sWrite s p :=
        match s with
        | Bufio b => let '(b, r) := sWrite bufio_ops b p in (Bufio b, r)
        | Compressed c =>
            let '(c, r) := Compressor.Write (stream_ops_at d') c p in
            (Compressed c, r)
        end;
      sFlush s :=
        match s with
        | Bufio b => let '(b, r) := sFlush bufio_ops b in (Bufio b, r)
        | Compressed c =>
            let '(c, r) := Compressor.Flush (stream_ops_at d') c in
            (Compressed c, r)
        end |}
  end.

Definition stream_ops : StreamOps Stream := {|
  sRead s n := sRead (stream_ops_at (depth s)) s n;
  sWrite s p := sWrite (stream_ops_at (depth s)) s p;
  sFlush s := sFlush (stream_ops_at (depth s)) s
|}.

End StreamOps.

(** ** mysql/conn.go *)

Module Conn.

(** Where [c.r], [c.w] and [c.compressor] point.  [NewConn] and
    [SetRawConn] make [r] and [w] a fresh buffered pair; [EnableCompression]
    makes [r], [w] and [compressor] one and the same compressor.  So either
    the connection does its I/O on a buffered pair, and [compressor] is nil
    or a compressor that is no longer on the I/O path, or all three are the
    same object. *)
Inductive IO : Type :=
| Direct (b : bufio) (compressor : option (Compressor.Compressor Stream))
| Through (z : Compressor.Compressor Stream).

Record Conn : Type := mk {
  conn : NetConn;    (* the transport as handed to NewConn or SetRawConn;
                        its byte streams live on in the buffered pair *)
  io : IO;
  sequence : Z;
  seqreset : Z;
  readTimeout : Z;
  (* maxAllowedPacket is the maximum size of one packet in readPacket. *)
  maxAllowedPacket : Z
}.

(** The stream behind [c.r] and [c.w]. *)
Definition rw (c : Conn) : Stream :=
  match io c with
  | Direct b _ => Bufio b
  | Through z => Compressed z
  end.

(** [c.compressor]. *)
Definition compressor (c : Conn) : option (Compressor.Compressor Stream) :=
  match io c with
  | Direct _ z => z
  | Through z => Some z
  end.

Definition set_io (c : Conn) (i : IO) : Conn :=
  mk (conn c) i (sequence c) (seqreset c) (readTimeout c) (maxAllowedPacket c).
Definition set_sequence (c : Conn) (n : Z) : Conn :=
  mk (conn c) (io c) n (seqreset c) (readTimeout c) (maxAllowedPacket c).
Definition set_seqreset (c : Conn) (n : Z) : Conn :=
  mk (conn c) (io c) (sequence c) n (readTimeout c) (maxAllowedPacket c).

Definition NewConn (conn : NetConn) : Conn :=
  mk conn (Direct (NewBufio conn) None) 0 0 0 (2 ^ 64 - 1).

Definition SetRawConn (c : Conn) (conn : NetConn) : Conn :=
  mk conn (Direct (NewBufio conn) (compressor c))
     (sequence c) (seqreset c) (readTimeout c) (maxAllowedPacket c).

Definition SetReadTimeout (c : Conn) (timeout : Z) : Conn :=
  mk (conn c) (io c) (sequence c) (seqreset c) timeout (maxAllowedPacket c).

Definition SetMaxAllowedPacket (c : Conn) (maxAllowedPacket : Z) : Conn :=
  mk (conn c) (io c) (sequence c) (seqreset c) (readTimeout c) maxAllowedPacket.

Definition RawConn (c : Conn) : NetConn := conn c.

Definition SetResetOption (c : Conn) (opt : Z) : Conn :=
  let c := set_seqreset c opt in
  match io c with
  | Direct b None => c
  | Direct b (Some z) =>
      set_io c (Direct b (Some (Compressor.SetResetOption z opt)))
  | Through z => set_io c (Through (Compressor.SetResetOption z opt))
  end.

Definition EnableCompression (c : Conn) : Conn :=
  set_io c (Through (Compressor.NewCompressor (rw c))).

(** The bytes this connection has put on its transport. *)
Definition wire (c : Conn) : list Z := stream_wire (rw c).

(** The sequence number the next [WritePacket] starts from, and the
    connection once the pending on-write reset has been applied. *)
Definition write_seq (c : Conn) : Z :=
  if decide (Z.land (seqreset c) SeqResetOnWrite <> 0) then 0 else sequence c.

Definition after_reset (c : Conn) : Conn :=
  if decide (Z.land (seqreset c) SeqResetOnWrite <> 0)
  then set_sequence
         (set_seqreset c (clear_flag8 (seqreset c) SeqResetOnWrite)) 0
  else c.

(** A connection on the buffered pair [b] after [bytes] were appended to
    the writer and the sequence counter was set to [seq]. *)
Definition pushed (c : Conn) (b : bufio)
    (z : option (Compressor.Compressor Stream)) (bytes : list Z) (seq : Z) : Conn :=
  mk (conn c) (Direct (mkBufio (rd b) (wbuf b ++ bytes) (out b)) z)
     seq (seqreset c) (readTimeout c) (maxAllowedPacket c).

Section IO.
Context {zlib : Zlib}.

(** [c.r] and [c.w] in action. *)
Definition io_read (i : IO) (n : nat) : IO * (list Z * option error) :=
  match i with
  | Direct b z => let '(b, r) := sRead bufio_ops b n in (Direct b z, r)
  | Through z =>
      let '(z, r) :=
        Compressor.Read_loop (stream_ops_at (depth (Compressor.rw z)))
          (2 * pending (Compressed z) + 2) z n [] in
      (Through z, r)
  end.

Definition io_write (i : IO) (p : list Z) : IO * (Z * option error) :=
  match i with
  | Direct b z => let '(b, r) := sWrite bufio_ops b p in (Direct b z, r)
  | Through z =>
      let '(z, r) := Compressor.Write (stream_ops_at (depth (Compressor.rw z))) z p in
      (Through z, r)
  end.

Definition io_flush (i : IO) : IO * option error :=
  match i with
  | Direct b z => let '(b, r) := sFlush bufio_ops b in (Direct b z, r)
  | Through z =>
      let '(z, r) := Compressor.Flush (stream_ops_at (depth (Compressor.rw z))) z in
      (Through z, r)
  end.

(** [readFull]: [io.ReadFull] into [n] bytes.  Read deadlines are not
    modelled: a read ends with the bytes or with the end of the input. *)
Definition readFull (c : Conn) (n : nat) : Conn * (list Z * option error) :=
  let '(i, (data, err)) := io_read (io c) n in
  let c := set_io c i in
  if decide (length data = n) then (c, (data, None))
  else (c, (data,
            Some (match err with
                  | Some EOF => if decide (data = []) then EOF else ErrUnexpectedEOF
                  | Some e => e
                  | None => ErrUnexpectedEOF
                  end))).

(** [ReadPartialPacket] appends the payload to [b] and returns [(n, err)]. *)
Definition ReadPartialPacket (c : Conn) (b : list Z)
  : Conn * list Z * (Z * option error) :=
  let '(c, (head, err)) := readFull c 4 in
  match err with
  | Some e => (c, b, (0, Some e))
  | None =>
      let c :=
        if decide (Z.land (seqreset c) SeqResetOnRead <> 0)
        then set_sequence
               (set_seqreset c (clear_flag8 (seqreset c) SeqResetOnRead)) 0
        else c in
      let sequence_ := nth 3 head 0 in
      if decide (sequence_ <> sequence c) then
        (c, b, (0, Some (ErrInvalidSequence sequence_ (sequence c))))
      else
        let c := set_sequence c (incr8 (sequence c)) in
        let n := readLen3 (take 3 head) in
        (* b.ReadFrom(&io.LimitedReader{R: c.r, N: int64(n)}) *)
        let '(i, (data, err)) := io_read (io c) (Z.to_nat n) in
        let c := set_io c i in
        let b := b ++ data in
        let readLen := len data in
        let err := match err with Some EOF => None | e => e end in
        if decide (readLen <> n) then (c, b, (readLen, err))
        else (c, b, (n, None))
  end.

Fixpoint ReadPacket_loop (fuel : nat) (c : Conn) (b : list Z)
  : Conn * list Z * option error :=
  match fuel with
  | O => (c, b, Some OutOfFuel)
  | S fuel' =>
      match ReadPartialPacket c b with
      | (c, b, (n, Some err)) => (c, b, Some err)
      | (c, b, (n, None)) =>
          if n <? MaxPayloadLen then (c, b, None)
          else ReadPacket_loop fuel' c b
      end
  end.

(** [ReadPacket] reads a complete MySQL packet into [b]. *)
Definition ReadPacket (c : Conn) (b : list Z) : Conn * list Z * option error :=
  ReadPacket_loop (S (pending (rw c))) c b.

(** The loop of [WritePacket]. *)
Fixpoint WritePacket_loop (fuel : nat) (c : Conn) (data : list Z)
  : Conn * option error :=
  match fuel with
  | O => (c, Some OutOfFuel)
  | S fuel' =>
      let plen := if len data >=? MaxPayloadLen then MaxPayloadLen else len data in
      let head := writeLen3 plen ++ [sequence c] in
      let '(i, (n, err)) := io_write (io c) head in
      let c := set_io c i in
      if decide (err <> None \/ n <> len head) then (c, Some ErrBadConn)
      else
        let '(i, (n, err)) := io_write (io c) (take (Z.to_nat plen) data) in
        let c := set_io c i in
        if decide (err <> None) then (c, Some ErrBadConn)
        else if decide (n <> plen) then (c, Some ErrBadConn)
        else
          let c := set_sequence c (incr8 (sequence c)) in
          let data := drop (Z.to_nat plen) data in
          if decide (len data = 0) then (c, None)
          else WritePacket_loop fuel' c data
  end.

(** [WritePacket] writes data. *)
Definition WritePacket (c : Conn) (data : list Z) : Conn * option error :=
  let c :=
    if decide (Z.land (seqreset c) SeqResetOnWrite <> 0)
    then set_sequence
           (set_seqreset c (clear_flag8 (seqreset c) SeqResetOnWrite)) 0
    else c in
  WritePacket_loop (S (length data)) c data.

(** [Flush] flushes data to the underlying connection. *)
Definition Flush (c : Conn) : Conn * option error :=
  let '(i, err) := io_flush (io c) in
  (set_io c i, err).

(** Successive [WritePacket] calls, one per payload, up to the first error. *)
Fixpoint WritePackets (c : Conn) (payloads : list (list Z))
  : Conn * option error :=
  match payloads with
  | [] => (c, None)
  | p :: rest =>
      match WritePacket c p with
      | (c, None) => WritePackets c rest
      | (c, Some e) => (c, Some e)
      end
  end.

End IO.
End Conn.

(** ** The earlier revision of mysql/conn.go

    Before compression and sequence resets were added, [Conn] read and wrote
    whole wire packets with [readPacket] and [writePacket] and counted the
    payload bytes received in [accumulatedLength]. *)

Module ConnV1.

Record Conn : Type := mk {
  conn : NetConn;
  rw : bufio;                 (* r *bufio.Reader and w *bufio.Writer *)
  sequence : Z;
  readTimeout : Z;
  (* maxAllowedPacket is the maximum size of one packet in readPacket. *)
  maxAllowedPacket : Z;
  (* accumulatedLength count the length of totally received 'payload' in
     readPacket. *)
  accumulatedLength : Z
}.

Definition NewConn (conn : NetConn) : Conn :=
  mk conn (NewBufio conn) 0 0 (2 ^ 64 - 1) 0.

Definition SetMaxAllowedPacket (p : Conn) (maxAllowedPacket : Z) : Conn :=
  mk (conn p) (rw p) (sequence p) (readTimeout p) maxAllowedPacket
     (accumulatedLength p).

Definition set_rw (p : Conn) (b : bufio) : Conn :=
  mk (conn p) b (sequence p) (readTimeout p) (maxAllowedPacket p)
     (accumulatedLength p).
Definition set_sequence (p : Conn) (n : Z) : Conn :=
  mk (conn p) (rw p) n (readTimeout p) (maxAllowedPacket p)
     (accumulatedLength p).
Definition set_accumulatedLength (p : Conn) (n : Z) : Conn :=
  mk (conn p) (rw p) (sequence p) (readTimeout p) (maxAllowedPacket p) n.

Definition readFull (p : Conn) (n : nat) : Conn * (list Z * option error) :=
  let '(b, (data, err)) := sRead bufio_ops (rw p) n in
  let p := set_rw p b in
  if decide (length data = n) then (p, (data, None))
  else (p, (data,
            Some (match err with
                  | Some EOF => if decide (data = []) then EOF else ErrUnexpectedEOF
                  | Some e => e
                  | None => ErrUnexpectedEOF
                  end))).

Definition readPacket (p : Conn) : Conn * (error + list Z) :=
  let '(p, (header, err)) := readFull p 4 in
  match err with
  | Some e => (p, inl e)
  | None =>
      let sequence_ := nth 3 header 0 in
      if decide (sequence_ <> sequence p) then
        (p, inl (ErrInvalidSequence sequence_ (sequence p)))
      else
        let p := set_sequence p (incr8 (sequence p)) in
        let length := readLen3 (take 3 header) in
        (* Accumulated payload length exceeds the limit. *)
        let p := set_accumulatedLength p
                   ((accumulatedLength p + length) mod 2 ^ 64) in
        if accumulatedLength p >? maxAllowedPacket p then
          (p, inl errNetPacketTooLarge)
        else
          let '(p, (data, err)) := readFull p (Z.to_nat length) in
          match err with
          | Some e => (p, inl e)
          | None => (p, inr data)
          end
  end.

(** [writePacket] writes data that already have header: the first four
    bytes of [data] are room for the header, which the function fills in
    place. *)
Definition put_header (data : list Z) (h : list Z) : list Z := h ++ drop 4 data.

Fixpoint writePacket_loop (fuel : nat) (p : Conn) (data : list Z) (length : Z)
  : Conn * list Z * Z * option error :=
  if length >=? MaxPayloadLen then
    match fuel with
    | O => (p, data, length, Some OutOfFuel)
    | S fuel' =>
        let data := put_header data [255; 255; 255; sequence p] in
        let '(b, (n, err)) :=
          sWrite bufio_ops (rw p) (take (Z.to_nat (4 + MaxPayloadLen)) data) in
        let p := set_rw p b in
        if decide (err <> None) then (p, data, length, Some ErrBadConn)
        else if decide (n <> 4 + MaxPayloadLen) then
          (p, data, length, Some ErrBadConn)
        else
          writePacket_loop fuel' (set_sequence p (incr8 (sequence p)))
            (drop (Z.to_nat MaxPayloadLen) data) (length - MaxPayloadLen)
    end
  else (p, data, length, None).

Definition writePacket (p : Conn) (data : list Z) : Conn * option error :=
  if decide (length data < 4)%nat then (p, Some PanicSliceBounds)
  else
    let length_ := len data - 4 in
    match writePacket_loop (length data) p data length_ with
    | (p, _, _, Some e) => (p, Some e)
    | (p, data, length_, None) =>
        let data := put_header data
                      [to_byte length_; to_byte (Z.shiftr length_ 8);
                       to_byte (Z.shiftr length_ 16); sequence p] in
        let '(b, (n, err)) := sWrite bufio_ops (rw p) data in
        let p := set_rw p b in
        if decide (err <> None) then (p, Some ErrBadConn)
        else if decide (n <> len data) then (p, Some ErrBadConn)
        else (set_sequence p (incr8 (sequence p)), None)
    end.

(** The connection after [bytes] were appended to the writer and the
    sequence counter was set to [seq]. *)
Definition pushed (p : Conn) (bytes : list Z) (seq : Z) : Conn :=
  mk (conn p) (mkBufio (rd (rw p)) (wbuf (rw p) ++ bytes) (out (rw p)))
     seq (readTimeout p) (maxAllowedPacket p) (accumulatedLength p).

End ConnV1.

(** ** mysql/packet_handshake_response.go: the decoded packet *)

Record HandshakeResponse : Type := mkHandshakeResponse {
  Capability : Z;             (* uint32 *)
  MaxPacketSize : Z;          (* uint32 *)
  CharacterSet : Z;           (* byte *)
  UserName : string;
  DBName : string;
  Auth : list Z;
  AuthPlugin : string;
  Attrs : gmap string string
}.

Definition set_UserName (res : HandshakeResponse) (u : string) : HandshakeResponse :=
  mkHandshakeResponse (Capability res) (MaxPacketSize res) (CharacterSet res)
    u (DBName res) (Auth res) (AuthPlugin res) (Attrs res).

(** ** Library functions used by the gateway package *)

(** The byte [s[i]] of a Go string, as an integer, and the slice [s[n:]]. *)
Definition code (a : ascii) : Z := Z.of_N (N_of_ascii a).

Definition byte_at (i : nat) (s : string) : Z :=
  match String.get i s with
  | Some a => code a
  | None => 0
  end.

Fixpoint skip (n : nat) (s : string) : string :=
  match n, s with
  | O, _ => s
  | S n', String _ s' => skip n' s'
  | S _, EmptyString => EmptyString
  end.

Module utf8.

Definition RuneError : Z := 65533.  (* U+FFFD *)
Definition RuneSelf : Z := 128.

Definition maskx : Z := 63.
Definition mask2 : Z := 31.
Definition mask3 : Z := 15.
Definition mask4 : Z := 7.

(** The default lowest and highest continuation byte. *)
Definition locb : Z := 128.
Definition hicb : Z := 191.

(** The entries of the table [first]: the high nibble is an index into
    [acceptRanges], or [F] for the one-byte cases; the low nibble is the
    length of the encoding, or the status of a one-byte case. *)
Definition xx : Z := 241.  (* 0xF1, invalid: size 1 *)
Definition as_ : Z := 240. (* 0xF0, ASCII: size 1 *)
Definition s1 : Z := 2.    (* 0x02, accept 0, size 2 *)
Definition s2 : Z := 19.   (* 0x13, accept 1, size 3 *)
Definition s3 : Z := 3.    (* 0x03, accept 0, size 3 *)
Definition s4 : Z := 35.   (* 0x23, accept 2, size 3 *)
Definition s5 : Z := 52.   (* 0x34, accept 3, size 4 *)
Definition s6 : Z := 4.    (* 0x04, accept 0, size 4 *)
Definition s7 : Z := 68.   (* 0x44, accept 4, size 4 *)

(** [first[b]], the table of information about the first byte of a
    sequence, row by row. *)
Definition first (b : Z) : Z :=
  if b <? 128 then as_          (* 0x00-0x7F *)
  else if b <? 194 then xx      (* 0x80-0xBF, 0xC0, 0xC1 *)
  else if b <? 224 then s1      (* 0xC2-0xDF *)
  else if b =? 224 then s2      (* 0xE0 *)
  else if b <? 237 then s3      (* 0xE1-0xEC *)
  else if b =? 237 then s4      (* 0xED *)
  else if b <? 240 then s3      (* 0xEE, 0xEF *)
  else if b =? 240 then s5      (* 0xF0 *)
  else if b <? 244 then s6      (* 0xF1-0xF3 *)
  else if b =? 244 then s7      (* 0xF4 *)
  else xx.                      (* 0xF5-0xFF *)

(** [acceptRanges[i]], the range of the second byte of a sequence. *)
Definition acceptRanges (i : Z) : Z * Z :=
  if i =? 0 then (locb, hicb)
  else if i =? 1 then (160, hicb)
  else if i =? 2 then (locb, 159)
  else if i =? 3 then (144, hicb)
  else if i =? 4 then (locb, 143)
  else (0, 0).

(** [DecodeRuneInString(s)]: the first rune of [s] and its width in bytes;
    [(RuneError, 0)] on the empty string and [(RuneError, 1)] on an invalid
    encoding.  In the one-byte case the source selects between [s[0]] and
    [RuneError] with the mask [rune(x) << 31 >> 31], which is all ones
    when [x] is odd, that is [xx], and zero when it is [as]. *)
Definition DecodeRuneInString (s : string) : Z * nat :=
  let n := Z.of_nat (String.length s) in
  if n <? 1 then (RuneError, 0%nat)
  else
    let s0 := byte_at 0 s in
    let x := first s0 in
    if x >=? as_ then ((if Z.odd x then RuneError else s0), 1%nat)
    else
      let sz := Z.land x 7 in
      let '(lo, hi) := acceptRanges (Z.shiftr x 4) in
      if n <? sz then (RuneError, 1%nat)
      else
        let s1 := byte_at 1 s in
        if (s1 <? lo) || (hi <? s1) then (RuneError, 1%nat)
        else if sz <=? 2
        then (Z.lor (Z.shiftl (Z.land s0 mask2) 6) (Z.land s1 maskx), 2%nat)
        else
          let s2 := byte_at 2 s in
          if (s2 <? locb) || (hicb <? s2) then (RuneError, 1%nat)
          else if sz <=? 3
          then (Z.lor (Z.lor (Z.shiftl (Z.land s0 mask3) 12)
                             (Z.shiftl (Z.land s1 maskx) 6))
                      (Z.land s2 maskx), 3%nat)
          else
            let s3 := byte_at 3 s in
            if (s3 <? locb) || (hicb <? s3) then (RuneError, 1%nat)
            else (Z.lor (Z.lor (Z.lor (Z.shiftl (Z.land s0 mask4) 18)
                                      (Z.shiftl (Z.land s1 maskx) 12))
                               (Z.shiftl (Z.land s2 maskx) 6))
                        (Z.land s3 maskx), 4%nat).

End utf8.

Module unicode.

(** The case tables of the [unicode] package are data outside the files at
    hand.  [SimpleFold r] is the next rune of the case-folding orbit of [r]:
    the smallest rune above [r] that is equivalent to it, or else the
    smallest rune of the orbit; a rune without case variants is its own
    orbit.  [orbit_max] bounds the number of steps after which an orbit is
    back at its start. *)
Class Tables : Type := {
  SimpleFold : Z -> Z;
  orbit_max : nat
}.

(** The orbits of a table close: from every rune, at most [orbit_max] further
    steps after the first lead back to it. *)
Definition orbits_close {U : Tables} : Prop :=
  forall r, exists n, (n <= orbit_max)%nat /\ Nat.iter (S n) SimpleFold r = r.

(** The loop [for r != sr && r < tr { r = unicode.SimpleFold(r) }] of
    [strings.EqualFold], entered with [r = SimpleFold(sr)].  On a table whose
    orbits close it ends within [orbit_max] steps. *)
Fixpoint SimpleFold_loop {U : Tables} (fuel : nat) (sr tr r : Z) : Z :=
  if negb (r =? sr) && (r <? tr) then
    match fuel with
    | O => r
    | S fuel' => SimpleFold_loop fuel' sr tr (SimpleFold r)
    end
  else r.

(** The part of the tables that meets ASCII: upper- and lower-case letters
    fold to each other, and two orbits have a third member, [K], [k] and the
    Kelvin sign U+212A, and [S], [s] and the long s U+017F.  Every other rune
    is left without case variants here, so this table stands for the
    library's only on text made of ASCII and these two runes. *)
Definition ascii_orbits : Tables :=
  {| SimpleFold r :=
       if r =? 107 then 8490
       else if r =? 8490 then 75
       else if r =? 115 then 383
       else if r =? 383 then 83
       else if (65 <=? r) && (r <=? 90) then r + 32
       else if (97 <=? r) && (r <=? 122) then r - 32
       else r;
     orbit_max := 2 |}.

End unicode.

Module strings.

(** [strings.SplitN(s, sep, 2)] for a one-byte separator: the text before
    and after the first occurrence of [sep], or [s] alone when [sep] does
    not occur. *)
Fixpoint cut (sep : ascii) (s : string) : option (string * string) :=
  match s with
  | EmptyString => None
  | String a s' =>
      if Ascii.eqb a sep then Some (EmptyString, s')
      else match cut sep s' with
           | Some (before, after) => Some (String a before, after)
           | None => None
           end
  end.

Definition SplitN2 (s : string) (sep : ascii) : list string :=
  match cut sep s with
  | None => [s]
  | Some (before, after) => [before; after]
  end.

(** [strings.EqualFold(s, t)]: whether [s] and [t], read as UTF-8, are equal
    under Unicode simple case folding.  The function is that of Go 1.18, the
    release [go.mod] names: one loop that takes a rune off each string.

    [next_rune] is the block that extracts the first rune of a string that
    is not empty: a byte below [utf8.RuneSelf] is its own rune, anything else
    is decoded. *)
Definition next_rune (s : string) : Z * string :=
  match s with
  | EmptyString => (utf8.RuneError, s)
  | String a s' =>
      if code a <? utf8.RuneSelf then (code a, s')
      else let '(r, size) := utf8.DecodeRuneInString s in (r, skip size s)
  end.

(** The rest of an iteration, from the two runes on: [true] where the loop
    continues and [false] where the function returns false. *)
Definition fold_eqb {U : unicode.Tables} (sr tr : Z) : bool :=
  (* Easy case. *)
  if tr =? sr then true
  else
    (* Make sr < tr to simplify what follows. *)
    let '(sr, tr) := if tr <? sr then (tr, sr) else (sr, tr) in
    (* Fast check for ASCII. *)
    if tr <? utf8.RuneSelf
    then (65 <=? sr) && (sr <=? 90) && (tr =? sr + 97 - 65)
    else
      (* General case. *)
      let r := unicode.SimpleFold_loop unicode.orbit_max sr tr
                 (unicode.SimpleFold sr) in
      r =? tr.

(** The loop [for s != "" && t != ""] and the final [return s == t], reached
    with one string empty.  Every iteration takes at least one byte off [s]:
    [fuel] counts the iterations, and the length of [s] is enough. *)
Fixpoint EqualFold_loop {U : unicode.Tables} (fuel : nat) (s t : string) : bool :=
  match s, t with
  | EmptyString, EmptyString => true
  | String _ _, String _ _ =>
      match fuel with
      | O => false
      | S fuel' =>
          let '(sr, s') := next_rune s in
          let '(tr, t') := next_rune t in
          if fold_eqb sr tr then EqualFold_loop fuel' s' t' else false
      end
  | _, _ => false
  end.

Definition EqualFold {U : unicode.Tables} (s t : string) : bool :=
  EqualFold_loop (String.length s) s t.

(** Text in which every byte is below [utf8.RuneSelf]. *)
Fixpoint is_ascii (s : string) : bool :=
  match s with
  | EmptyString => true
  | String a s' => (code a <? utf8.RuneSelf) && is_ascii s'
  end.

(** The lower-case form of a byte and of a text, as character codes: what
    case-insensitive comparison of ASCII text compares. *)
Definition lower_code (a : ascii) : Z :=
  if (65 <=? code a) && (code a <=? 90) then code a + 32 else code a.

Fixpoint lower_codes (s : string) : list Z :=
  match s with
  | EmptyString => []
  | String a s' => lower_code a :: lower_codes s'
  end.

(** [strings.IndexByte(s, c) >= 0]. *)
Fixpoint has_byte (c : ascii) (s : string) : bool :=
  match s with
  | EmptyString => false
  | String a s' => Ascii.eqb a c || has_byte c s'
  end.

End strings.

Module regexp.

Definition is_digit (a : ascii) : bool :=
  let n := Z.of_N (N_of_ascii a) in (48 <=? n) && (n <=? 57).

Fixpoint all_digits (s : string) : bool :=
  match s with
  | EmptyString => true
  | String a s' => is_digit a && all_digits s'
  end.

(** [\d+$] at the start of [s]: [s] is one or more digits and nothing else. *)
Fixpoint digits (s : string) : bool :=
  match s with
  | EmptyString => false
  | String a EmptyString => is_digit a
  | String a s' => is_digit a && digits s'
  end.

(** [regexp.MatchString(`:\d+$`, s)]: somewhere in [s] there is a colon
    followed by one or more digits that run to the end of [s]. *)
Fixpoint MatchPortSuffix (s : string) : bool :=
  match s with
  | EmptyString => false
  | String a s' => (Ascii.eqb a ":"%char && digits s') || MatchPortSuffix s'
  end.

End regexp.

(** ** The gateway package *)

Module Gateway.

Record BackendConfig : Type := mkBackendConfig {
  ClusterID : string;
  Address : string
}.

Definition BackendConfigs := list BackendConfig.

Fixpoint Find {U : unicode.Tables} (b : BackendConfigs) (cluster : string) : string :=
  match b with
  | [] => cluster
  | c :: rest =>
      if strings.EqualFold (ClusterID c) cluster then Address c
      else Find rest cluster
  end.

Record Config : Type := mkConfig {
  backendConfigs : BackendConfigs;
  EnableCompression : bool;
  BackendInsecureTransport : bool
}.

(** The port default of [getBackendAddr], as a function of the resolved
    address. *)
Definition with_default_port (addr : string) : string :=
  if regexp.MatchPortSuffix addr then addr else (addr ++ ":4000")%string.

(** [getBackendAddr] returns the address and leaves the user name of [res]
    stripped of the cluster identifier. *)
Definition getBackendAddr {U : unicode.Tables} (conf : Config) (res : HandshakeResponse)
  : string * HandshakeResponse :=
  let splits := strings.SplitN2 (UserName res) "."%char in
  let '(clusterID, userName) :=
    if decide (length splits = 1%nat)
    then (nth 0 splits EmptyString, EmptyString)
    else (nth 0 splits EmptyString, nth 1 splits EmptyString) in
  let res := set_UserName res userName in
  let clusterAddr := Find (backendConfigs conf) clusterID in
  let clusterAddr :=
    if regexp.MatchPortSuffix clusterAddr then clusterAddr
    else (clusterAddr ++ ":4000")%string in
  (clusterAddr, res).

Section Constants.
(** The capability flags and the plugin name are constants of the [mysql]
    package declared outside the files at hand. *)
Variables ClientCompress ClientSecureConnection ClientPluginAuth : Z.
Variable AuthInvalidMethod : string.

Definition set_Capability (res : HandshakeResponse) (cap : Z) : HandshakeResponse :=
  mkHandshakeResponse cap (MaxPacketSize res) (CharacterSet res)
    (UserName res) (DBName res) (Auth res) (AuthPlugin res) (Attrs res).
Definition set_AuthPlugin (res : HandshakeResponse) (name : string) : HandshakeResponse :=
  mkHandshakeResponse (Capability res) (MaxPacketSize res) (CharacterSet res)
    (UserName res) (DBName res) (Auth res) name (Attrs res).

(** [x &^= flag] written [x &= ^flag] on a [uint32]. *)
Definition clear_flag32 (x flag : Z) : Z := Z.land x (Z.lxor flag 4294967295).

(** The statements of [handleConn] between receiving the backend's
    handshake and [backendConn.SendPacket(res)]. *)
Definition handleConn_rewrite (conf : Config) (res : HandshakeResponse)
  : HandshakeResponse :=
  (* Always connect backend without compression. *)
  let res := set_Capability res (clear_flag32 (Capability res) ClientCompress) in
  let res :=
    if BackendInsecureTransport conf
    then set_Capability res (clear_flag32 (Capability res) ClientSecureConnection)
    else res in
  (* Change auth plugin to a invalid name that backend does not know. *)
  let res := set_Capability res (Z.lor (Capability res) ClientPluginAuth) in
  set_AuthPlugin res AuthInvalidMethod.

(** [handleConn] from the routing step to the packet sent to the backend:
    the backend address and the response as [SendPacket] receives it. *)
Definition handleConn_forward {U : unicode.Tables} (conf : Config) (res : HandshakeResponse)
  : string * HandshakeResponse :=
  let '(backendAddr, res) := getBackendAddr conf res in
  (backendAddr, handleConn_rewrite conf res).

End Constants.
End Gateway.

(** * Properties *)

(** ** Arithmetic of bytes *)

Lemma MaxPayloadLen_eq : MaxPayloadLen = 16777215.
Proof. reflexivity. Qed.

Lemma maxBufferLen_eq : maxBufferLen = 8388607.
Proof. reflexivity. Qed.

Lemma land_shiftl_disjoint (a b n : Z) :
  0 <= n -> 0 <= a < 2 ^ n -> Z.land a (b * 2 ^ n) = 0.
Proof.
  intros Hn Ha. apply Z.bits_inj'; intros i Hi.
  rewrite Z.land_spec, Z.bits_0.
  destruct (Z.lt_ge_cases i n) as [Hlt|Hge].
  - rewrite Z.mul_pow2_bits_low by lia. apply andb_false_r.
  - destruct (Z.eq_dec a 0) as [->|Hne]; [now rewrite Z.bits_0|].
    rewrite (Z.bits_above_log2 a i); [reflexivity|lia|].
    assert (Z.log2 a < n) by (apply Z.log2_lt_pow2; lia). lia.
Qed.

(** Or-ing a value shifted past the bits of [a] is adding it. *)
Lemma lor_shiftl_add (a b n : Z) :
  0 <= n -> 0 <= a < 2 ^ n -> Z.lor a (Z.shiftl b n) = a + b * 2 ^ n.
Proof.
  intros Hn Ha.
  rewrite Z.shiftl_mul_pow2 by lia.
  rewrite <- Z.lxor_lor, <- Z.add_nocarry_lxor; auto using land_shiftl_disjoint.
Qed.

Lemma to_byte_mod n : to_byte n = n mod 256.
Proof.
  unfold to_byte. change 255 with (Z.ones 8).
  rewrite Z.land_ones by lia. reflexivity.
Qed.

Lemma to_uint16_mod n : to_uint16 n = n mod 2 ^ 16.
Proof.
  unfold to_uint16. change 65535 with (Z.ones 16).
  rewrite Z.land_ones by lia. reflexivity.
Qed.

Lemma to_uint32_mod n : to_uint32 n = n mod 2 ^ 32.
Proof.
  unfold to_uint32. change 4294967295 with (Z.ones 32).
  rewrite Z.land_ones by lia. reflexivity.
Qed.

Ltac pow2_consts :=
  change (2 ^ 8) with 256 in *; change (2 ^ 16) with 65536 in *;
  change (2 ^ 24) with 16777216 in *; change (2 ^ 32) with 4294967296 in *;
  change (2 ^ 40) with 1099511627776 in *;
  change (2 ^ 48) with 281474976710656 in *;
  change (2 ^ 56) with 72057594037927936 in *;
  change (2 ^ 64) with 18446744073709551616 in *.

(** Turns a little-endian reassembly into sums of quotients and
    remainders and leaves the rest to linear arithmetic. *)
Ltac le_bytes :=
  rewrite ?to_byte_mod, ?Z.shiftr_div_pow2 by lia;
  repeat (rewrite !lor_shiftl_add; try lia);
  pow2_consts; Z.div_mod_to_equations; lia.

Lemma Uint16_PutUint16 v :
  0 <= v < 2 ^ 16 -> Buffer.Uint16 (Buffer.PutUint16 v) = v.
Proof.
  intros Hv. unfold Buffer.Uint16, Buffer.PutUint16. cbn [nth]. le_bytes.
Qed.

Lemma Uint64_PutUint64 v :
  0 <= v < 2 ^ 64 -> Buffer.Uint64 (Buffer.PutUint64 v) = v.
Proof.
  intros Hv. unfold Buffer.Uint64, Buffer.PutUint64. cbn [nth]. le_bytes.
Qed.

Lemma readLen3_writeLen3 n :
  0 <= n < 2 ^ 24 -> readLen3 (writeLen3 n) = n.
Proof.
  intros Hn. unfold readLen3, writeLen3. cbn [nth]. le_bytes.
Qed.

Lemma writeLen3_max : writeLen3 MaxPayloadLen = [255; 255; 255].
Proof. reflexivity. Qed.

(** ** Lengths *)

Lemma len_app {A} (l k : list A) : len (l ++ k) = len l + len k.
Proof. unfold len. rewrite length_app. lia. Qed.

Lemma len_nonneg {A} (l : list A) : 0 <= len l.
Proof. unfold len. lia. Qed.

Lemma len_take {A} (l : list A) n :
  0 <= n <= len l -> len (take (Z.to_nat n) l) = n.
Proof. unfold len. intros Hn. rewrite length_take. lia. Qed.

Lemma len_drop {A} (l : list A) n :
  0 <= n <= len l -> len (drop (Z.to_nat n) l) = len l - n.
Proof. unfold len. intros Hn. rewrite length_drop. lia. Qed.

Lemma take_len {A} (l : list A) : take (Z.to_nat (len l)) l = l.
Proof. unfold len. rewrite Nat2Z.id. apply firstn_all. Qed.

Lemma drop_len {A} (l : list A) : drop (Z.to_nat (len l)) l = [].
Proof. unfold len. rewrite Nat2Z.id. apply drop_all. Qed.

Lemma len_wire_packet seq p : len (wire_packet seq p) = 4 + len p.
Proof. unfold wire_packet. rewrite !len_app. unfold len. cbn. lia. Qed.

Lemma len_full_chunks k seq data :
  Z.of_nat k * MaxPayloadLen <= len data ->
  len (full_chunks k seq data) = Z.of_nat k * (4 + MaxPayloadLen).
Proof.
  revert seq data. induction k as [|k IH]; intros seq data Hk.
  - reflexivity.
  - cbn [full_chunks]. pose proof MaxPayloadLen_eq as HM.
    rewrite len_app, len_wire_packet, len_take by lia.
    rewrite IH by (rewrite len_drop; lia). lia.
Qed.

(** ** The wire buffer codec *)

Lemma WriteLenencInt_app b x :
  Buffer.WriteLenencInt b x = b ++ Buffer.WriteLenencInt [] x.
Proof.
  unfold Buffer.WriteLenencInt, Buffer.WriteUint64, Buffer.WriteUint24,
    Buffer.WriteUint16, Buffer.WriteByte, Buffer.WriteBytes.
  repeat case_match; cbn; rewrite <- ?app_assoc; reflexivity.
Qed.

Lemma ReadLenencInt_cons b1 rest :
  Buffer.ReadLenencInt (b1 :: rest) =
  (if b1 <? 252 then Buffer.ret b1
   else if b1 =? 252 then Buffer.ReadUint16
   else if b1 =? 253 then Buffer.ReadUint24
   else if b1 =? 254 then Buffer.ReadUint64
   else Buffer.fail ErrInvalidLenencInt) rest.
Proof. reflexivity. Qed.

Lemma ReadUint16_PutUint16 v rest :
  0 <= v < 2 ^ 16 ->
  Buffer.ReadUint16 (Buffer.PutUint16 v ++ rest) = (inr v, rest).
Proof.
  intros Hv.
  change (Buffer.ReadUint16 (Buffer.PutUint16 v ++ rest))
    with (inr (B:=Z) (A:=error) (Buffer.Uint16 (Buffer.PutUint16 v)), rest).
  now rewrite Uint16_PutUint16.
Qed.

Lemma ReadUint64_PutUint64 v rest :
  0 <= v < 2 ^ 64 ->
  Buffer.ReadUint64 (Buffer.PutUint64 v ++ rest) = (inr v, rest).
Proof.
  intros Hv.
  change (Buffer.ReadUint64 (Buffer.PutUint64 v ++ rest))
    with (inr (B:=Z) (A:=error) (Buffer.Uint64 (Buffer.PutUint64 v)), rest).
  now rewrite Uint64_PutUint64.
Qed.

(** The three bytes [WriteUint24] emits, read back. *)
Lemma ReadUint24_split v rest :
  0 <= v < 2 ^ 24 ->
  Buffer.ReadUint24 ((Buffer.PutUint16 (v mod 2 ^ 16) ++ [v / 2 ^ 16]) ++ rest)
  = (inr v, rest).
Proof.
  intros Hv.
  change (Buffer.ReadUint24
            ((Buffer.PutUint16 (v mod 2 ^ 16) ++ [v / 2 ^ 16]) ++ rest))
    with (inr (B:=Z) (A:=error)
            (Z.lor (Buffer.Uint16 (Buffer.PutUint16 (v mod 2 ^ 16)))
                   (Z.shiftl (v / 2 ^ 16) 16)), rest).
  rewrite Uint16_PutUint16 by (apply Z.mod_pos_bound; lia).
  rewrite lor_shiftl_add by (try lia; apply Z.mod_pos_bound; lia).
  f_equal. f_equal. pose proof (Z.div_mod v (2 ^ 16)). lia.
Qed.

Lemma WriteLenencInt_1 x :
  0 <= x < 251 -> Buffer.WriteLenencInt [] x = [x].
Proof.
  intros Hx. unfold Buffer.WriteLenencInt.
  destruct (Z.ltb_spec x 251); [|lia].
  unfold Buffer.WriteByte. cbn. rewrite to_byte_mod, Z.mod_small by lia.
  reflexivity.
Qed.

Lemma WriteLenencInt_3 x :
  251 <= x < 2 ^ 16 ->
  Buffer.WriteLenencInt [] x = 252 :: Buffer.PutUint16 x.
Proof.
  intros Hx. unfold Buffer.WriteLenencInt.
  destruct (Z.ltb_spec x 251); [lia|].
  destruct (Z.leb_spec 251 x); [|lia].
  destruct (Z.ltb_spec x (2 ^ 16)); [|lia]. cbn [andb].
  unfold Buffer.WriteUint16, Buffer.WriteByte, Buffer.WriteBytes. cbn [app].
  rewrite to_uint16_mod, Z.mod_small by lia. reflexivity.
Qed.

Lemma WriteLenencInt_4 x :
  2 ^ 16 <= x < 2 ^ 24 ->
  Buffer.WriteLenencInt [] x
  = 253 :: Buffer.PutUint16 (x mod 2 ^ 16) ++ [x / 2 ^ 16].
Proof.
  intros Hx. unfold Buffer.WriteLenencInt.
  destruct (Z.ltb_spec x 251); [lia|].
  destruct (Z.leb_spec 251 x); [|lia].
  destruct (Z.ltb_spec x (2 ^ 16)); [lia|]. cbn [andb].
  destruct (Z.leb_spec (2 ^ 16) x); [|lia].
  destruct (Z.ltb_spec x (2 ^ 24)); [|lia]. cbn [andb].
  unfold Buffer.WriteUint24, Buffer.WriteUint16, Buffer.WriteByte,
    Buffer.WriteBytes.
  cbn [app]. rewrite to_uint32_mod, (Z.mod_small x (2 ^ 32)) by lia.
  change 65535 with (Z.ones 16). rewrite Z.land_ones by lia.
  rewrite to_uint16_mod, Z.mod_mod by lia.
  rewrite to_byte_mod, Z.shiftr_div_pow2 by lia.
  rewrite (Z.mod_small (x / 2 ^ 16)); [reflexivity|].
  pow2_consts. Z.div_mod_to_equations. lia.
Qed.

Lemma WriteLenencInt_9 x :
  2 ^ 24 <= x -> Buffer.WriteLenencInt [] x = 254 :: Buffer.PutUint64 x.
Proof.
  intros Hx. unfold Buffer.WriteLenencInt.
  destruct (Z.ltb_spec x 251); [lia|].
  destruct (Z.ltb_spec x (2 ^ 16)); [lia|]. rewrite andb_false_r.
  destruct (Z.ltb_spec x (2 ^ 24)); [lia|]. rewrite andb_false_r.
  reflexivity.
Qed.

Ltac eval_prefix :=
  cbn [Z.ltb Z.eqb Z.compare Pos.compare Pos.compare_cont Pos.eqb].

(** C7: decoding the length-encoded integer written for a [uint64] [x]
    returns [x] (and leaves what follows it in the buffer); values below
    0xFB take one byte, then come the 0xFC-prefixed u16, the 0xFD-prefixed
    u24 and the 0xFE-prefixed u64, so that 250 takes 1 byte, 251 and 0xFFFF
    take 3, 0x10000 and 0xFFFFFF take 4 and 0x1000000 takes 9. *)
Theorem lenenc_int_roundtrip (x : Z) :
  0 <= x < 2 ^ 64 ->
  (forall rest,
     Buffer.ReadLenencInt (Buffer.WriteLenencInt [] x ++ rest) = (inr x, rest))
  /\ (x < 251 -> Buffer.WriteLenencInt [] x = [x])
  /\ (251 <= x < 2 ^ 16 ->
      Buffer.WriteLenencInt [] x = 252 :: Buffer.PutUint16 x)
  /\ (2 ^ 16 <= x < 2 ^ 24 ->
      Buffer.WriteLenencInt [] x
      = 253 :: Buffer.PutUint16 (x mod 2 ^ 16) ++ [x / 2 ^ 16])
  /\ (2 ^ 24 <= x ->
      Buffer.WriteLenencInt [] x = 254 :: Buffer.PutUint64 x)
  /\ length (Buffer.WriteLenencInt [] 250) = 1%nat
  /\ length (Buffer.WriteLenencInt [] 251) = 3%nat
  /\ length (Buffer.WriteLenencInt [] 65535) = 3%nat
  /\ length (Buffer.WriteLenencInt [] 65536) = 4%nat
  /\ length (Buffer.WriteLenencInt [] 16777215) = 4%nat
  /\ length (Buffer.WriteLenencInt [] 16777216) = 9%nat.
Proof.
  intros Hx. split.
  - intros rest.
    destruct (Z.lt_ge_cases x 251) as [H1|H1].
    { rewrite WriteLenencInt_1 by lia. cbn [app]. rewrite ReadLenencInt_cons.
      destruct (Z.ltb_spec x 252); [reflexivity|lia]. }
    destruct (Z.lt_ge_cases x (2 ^ 16)) as [H2|H2].
    { rewrite WriteLenencInt_3 by lia.
      rewrite <- app_comm_cons, ReadLenencInt_cons. eval_prefix.
      apply ReadUint16_PutUint16. lia. }
    destruct (Z.lt_ge_cases x (2 ^ 24)) as [H3|H3].
    { rewrite WriteLenencInt_4 by lia.
      rewrite <- app_comm_cons, ReadLenencInt_cons. eval_prefix.
      apply ReadUint24_split. lia. }
    rewrite WriteLenencInt_9 by lia.
    rewrite <- app_comm_cons, ReadLenencInt_cons. eval_prefix.
    apply ReadUint64_PutUint64. lia.
  - split; [intros; apply WriteLenencInt_1; lia|].
    split; [apply WriteLenencInt_3|].
    split; [apply WriteLenencInt_4|].
    split; [apply WriteLenencInt_9|].
    repeat split.
Qed.

Lemma lenenc_int_roundtrip_witness :
  Buffer.ReadLenencInt (Buffer.WriteLenencInt [] 16777216 ++ [7])
  = (inr 16777216, [7])
  /\ Buffer.WriteLenencInt [] 16777216 = 254 :: Buffer.PutUint64 16777216.
Proof.
  pose proof (lenenc_int_roundtrip 16777216 ltac:(lia)) as (Hr & _ & _ & _ & H9 & _).
  split; [apply Hr|apply H9; lia].
Defined.

(** ** The framed connection: writing on the buffered pair *)

Section DirectWrites.
Context {zlib : Zlib}.

Lemma wire_pushed c b z bytes seq :
  Conn.io c = Conn.Direct b z ->
  Conn.wire (Conn.pushed c b z bytes seq) = Conn.wire c ++ bytes.
Proof.
  intros E. unfold Conn.wire, Conn.rw, Conn.pushed. rewrite E. cbn.
  unfold written. cbn. now rewrite app_assoc.
Qed.

Lemma Conn_pushed_pushed c b z bs1 s1 bs2 s2 :
  Conn.pushed (Conn.pushed c b z bs1 s1) (mkBufio (rd b) (wbuf b ++ bs1) (out b)) z bs2 s2
  = Conn.pushed c b z (bs1 ++ bs2) s2.
Proof. unfold Conn.pushed. cbn. now rewrite app_assoc. Qed.

(** A payload shorter than [MaxPayloadLen] leaves the loop after one wire
    packet. *)
Lemma WritePacket_loop_short fuel c b z data :
  Conn.io c = Conn.Direct b z ->
  len data < MaxPayloadLen ->
  Conn.WritePacket_loop (S fuel) c data
  = (Conn.pushed c b z (wire_packet (Conn.sequence c) data) (incr8 (Conn.sequence c)), None).
Proof.
  intros E Hlen. cbn [Conn.WritePacket_loop].
  destruct (Z.geb_spec (len data) MaxPayloadLen) as [?|_]; [lia|].
  rewrite E. cbn [Conn.io_write sWrite bufio_ops Conn.set_io Conn.io rd wbuf out].
  rewrite take_len, drop_len.
  destruct (decide _) as [[?|?]|_]; [done| |].
  { exfalso. unfold len in *. rewrite length_app in *. cbn in *. lia. }
  cbn [Conn.io_write sWrite bufio_ops Conn.set_io Conn.io rd wbuf out].
  destruct (decide _) as [?|_]; [done|].
  destruct (decide _) as [?|_]; [done|].
  destruct (decide _) as [_|?]; [|done].
  unfold Conn.pushed, wire_packet, Conn.set_sequence. cbn.
  rewrite <- !app_assoc. reflexivity.
Qed.

(** A payload of [MaxPayloadLen] bytes or more sends one full chunk, and
    the loop goes on exactly when bytes are left. *)
Lemma WritePacket_loop_full fuel c b z data :
  Conn.io c = Conn.Direct b z ->
  MaxPayloadLen <= len data ->
  Conn.WritePacket_loop (S fuel) c data
  = let c1 := Conn.pushed c b z
                (wire_packet (Conn.sequence c) (take (Z.to_nat MaxPayloadLen) data))
                (incr8 (Conn.sequence c)) in
    if decide (len (drop (Z.to_nat MaxPayloadLen) data) = 0) then (c1, None)
    else Conn.WritePacket_loop fuel c1 (drop (Z.to_nat MaxPayloadLen) data).
Proof.
  intros E Hlen. cbn [Conn.WritePacket_loop].
  destruct (Z.geb_spec (len data) MaxPayloadLen) as [_|?]; [|lia].
  rewrite E. cbn [Conn.io_write sWrite bufio_ops Conn.set_io Conn.io rd wbuf out].
  destruct (decide _) as [[?|?]|_]; [done| |].
  { exfalso. unfold len in *. rewrite length_app in *. cbn in *. lia. }
  cbn [Conn.io_write sWrite bufio_ops Conn.set_io Conn.io rd wbuf out].
  destruct (decide _) as [?|_]; [done|].
  destruct (decide _) as [Hn|_].
  { exfalso. apply Hn. apply len_take. pose proof MaxPayloadLen_eq. lia. }
  assert (Ew : wire_packet (Conn.sequence c) (take (Z.to_nat MaxPayloadLen) data)
               = (writeLen3 MaxPayloadLen ++ [Conn.sequence c])
                   ++ take (Z.to_nat MaxPayloadLen) data).
  { unfold wire_packet. rewrite len_take by (pose proof MaxPayloadLen_eq; lia).
    now rewrite <- app_assoc. }
  cbv zeta. rewrite Ew.
  unfold Conn.pushed, Conn.set_sequence. cbn [Conn.conn Conn.io Conn.sequence Conn.seqreset
    Conn.readTimeout Conn.maxAllowedPacket rd wbuf out].
  rewrite <- !app_assoc. reflexivity.
Qed.

(** [k + 1] full chunks and nothing after them. *)
Lemma WritePacket_loop_exact k : forall fuel c b z data,
  Conn.io c = Conn.Direct b z ->
  len data = Z.of_nat (S k) * MaxPayloadLen ->
  (k < fuel)%nat ->
  Conn.WritePacket_loop fuel c data
  = (Conn.pushed c b z (full_chunks (S k) (Conn.sequence c) data)
       ((Conn.sequence c + Z.of_nat (S k)) mod 256), None).
Proof.
  pose proof MaxPayloadLen_eq as HM.
  induction k as [|k IH]; intros fuel c b z data E Hlen Hfuel.
  - destruct fuel as [|fuel]; [lia|].
    rewrite (WritePacket_loop_full _ _ _ _ _ E) by lia. cbv zeta.
    rewrite decide_True by (rewrite len_drop; lia).
    cbn [full_chunks]. rewrite app_nil_r. reflexivity.
  - destruct fuel as [|fuel]; [lia|].
    rewrite (WritePacket_loop_full _ _ _ _ _ E) by lia. cbv zeta.
    rewrite decide_False by (rewrite len_drop; lia).
    erewrite IH; [| reflexivity | rewrite len_drop; lia | lia].
    rewrite Conn_pushed_pushed. cbn [Conn.pushed Conn.sequence].
    f_equal. unfold Conn.pushed. f_equal. unfold incr8.
    rewrite Zplus_mod_idemp_l. f_equal. lia.
Qed.

Lemma after_reset_io c : Conn.io (Conn.after_reset c) = Conn.io c.
Proof. unfold Conn.after_reset. now destruct (decide _). Qed.

Lemma after_reset_sequence c : Conn.sequence (Conn.after_reset c) = Conn.write_seq c.
Proof. unfold Conn.after_reset, Conn.write_seq. now destruct (decide _). Qed.

Lemma after_reset_wire c : Conn.wire (Conn.after_reset c) = Conn.wire c.
Proof. unfold Conn.wire, Conn.rw. now rewrite after_reset_io. Qed.

Lemma WritePacket_unfold c data :
  Conn.WritePacket c data = Conn.WritePacket_loop (S (length data)) (Conn.after_reset c) data.
Proof. reflexivity. Qed.

End DirectWrites.

Section Sequence.
Context {zlib : Zlib}.

Lemma WritePacket_short c b z data :
  Conn.io c = Conn.Direct b z ->
  len data < MaxPayloadLen ->
  Conn.WritePacket c data
  = (Conn.pushed (Conn.after_reset c) b z (wire_packet (Conn.write_seq c) data)
       (incr8 (Conn.write_seq c)), None).
Proof.
  intros E Hlen. rewrite WritePacket_unfold.
  rewrite (WritePacket_loop_short _ _ b z) by (rewrite ?after_reset_io; done).
  now rewrite after_reset_sequence.
Qed.

(** C1: for a payload of [(k + 1) * (2^24 - 1)] bytes [WritePacket] puts
    [k + 1] wire packets of [2^24 - 1] bytes on the wire and then returns:
    no zero-length wire packet follows them, so the bytes written differ from
    the chunks followed by an empty packet.  A payload of [2^24 - 2] bytes is
    one wire packet. *)
Theorem WritePacket_exact_multiple_no_terminator :
  (forall c b z (k : nat) data,
     Conn.io c = Conn.Direct b z ->
     len data = Z.of_nat (S k) * MaxPayloadLen ->
     exists c',
       Conn.WritePacket c data = (c', None)
       /\ Conn.wire c' = Conn.wire c ++ full_chunks (S k) (Conn.write_seq c) data
       /\ len (full_chunks (S k) (Conn.write_seq c) data)
          = Z.of_nat (S k) * (4 + MaxPayloadLen)
       /\ Conn.sequence c' = (Conn.write_seq c + Z.of_nat (S k)) mod 256
       /\ Conn.wire c' <>
          Conn.wire c ++ full_chunks (S k) (Conn.write_seq c) data
            ++ wire_packet ((Conn.write_seq c + Z.of_nat (S k)) mod 256) [])
  /\ (forall c b z data,
        Conn.io c = Conn.Direct b z ->
        len data = MaxPayloadLen - 1 ->
        exists c',
          Conn.WritePacket c data = (c', None)
          /\ Conn.wire c' = Conn.wire c ++ wire_packet (Conn.write_seq c) data).
Proof.
  pose proof MaxPayloadLen_eq as HM. split.
  - intros c b z k data E Hlen.
    eexists. rewrite WritePacket_unfold.
    rewrite (WritePacket_loop_exact k _ (Conn.after_reset c) b z data).
    2: now rewrite after_reset_io.
    2: assumption.
    2: { unfold len in Hlen. lia. }
    split; [reflexivity|].
    rewrite wire_pushed by now rewrite after_reset_io.
    rewrite after_reset_wire, after_reset_sequence.
    split; [reflexivity|].
    split; [apply len_full_chunks; lia|].
    split; [reflexivity|].
    intros Heq. apply app_inv_head in Heq.
    apply (f_equal len) in Heq. rewrite len_app, len_wire_packet in Heq.
    unfold len in Heq at 3. cbn in Heq. lia.
  - intros c b z data E Hlen.
    eexists. rewrite (WritePacket_short c b z data E) by lia.
    split; [reflexivity|].
    rewrite wire_pushed by now rewrite after_reset_io.
    now rewrite after_reset_wire.
Qed.

(** From a connection whose counter stands at [n mod 256] and that has no
    reset pending, the packets go out numbered [n], [n + 1], ... *)
Lemma WritePackets_from payloads : forall (n : nat) c b z,
  Conn.io c = Conn.Direct b z ->
  Conn.seqreset c = 0 ->
  Conn.sequence c = Z.of_nat n mod 256 ->
  Forall (fun p => len p < MaxPayloadLen) payloads ->
  exists c',
    Conn.WritePackets c payloads = (c', None)
    /\ Conn.wire c' =
       Conn.wire c
         ++ concat (imap (fun i p => wire_packet (Z.of_nat (n + i) mod 256) p) payloads)
    /\ Conn.sequence c' = Z.of_nat (n + length payloads) mod 256
    /\ Conn.seqreset c' = 0.
Proof.
  induction payloads as [|p ps IH]; intros n c b z E Hr Hs Hall.
  - exists c. cbn. rewrite app_nil_r, Nat.add_0_r. done.
  - apply Forall_cons in Hall as [Hp Hps].
    cbn [Conn.WritePackets].
    rewrite (WritePacket_short c b z p E Hp).
    assert (Hw : Conn.write_seq c = Z.of_nat n mod 256).
    { unfold Conn.write_seq. rewrite Hr, Hs. now destruct (decide _). }
    assert (Ha : Conn.after_reset c = c).
    { unfold Conn.after_reset. rewrite Hr. now destruct (decide _). }
    rewrite Hw, Ha.
    set (c1 := Conn.pushed c b z _ _).
    destruct (IH (S n) c1 _ z eq_refl) as (c' & E1 & E2 & E3 & E4);
      [exact Hr| |exact Hps|].
    { subst c1. cbn [Conn.pushed Conn.sequence]. unfold incr8.
      rewrite Zplus_mod_idemp_l. f_equal. lia. }
    subst c1.
    exists c'. split; [exact E1|].
    rewrite E2, wire_pushed by exact E.
    split; [|split; [rewrite E3; f_equal; cbn [length]; lia|exact E4]].
    rewrite <- app_assoc. f_equal. cbn [imap concat]. rewrite Nat.add_0_r.
    f_equal. f_equal. apply imap_ext. intros i x _. unfold compose.
    replace (Z.of_nat (S n + i)) with (Z.of_nat (n + S i)) by lia. reflexivity.
Qed.

(** On a buffered connection the loop always ends, without error, and the
    first bytes it writes are the header of the first chunk. *)
Lemma WritePacket_loop_direct fuel : forall c b z data,
  Conn.io c = Conn.Direct b z ->
  (length data < fuel)%nat ->
  exists rest seq',
    Conn.WritePacket_loop fuel c data
    = (Conn.pushed c b z
         (writeLen3 (Z.min (len data) MaxPayloadLen) ++ [Conn.sequence c] ++ rest)
         seq', None).
Proof.
  pose proof MaxPayloadLen_eq as HM.
  induction fuel as [|fuel IH]; intros c b z data E Hfuel; [lia|].
  destruct (Z.lt_ge_cases (len data) MaxPayloadLen) as [Hlt|Hge].
  - rewrite (WritePacket_loop_short _ _ b z) by done.
    rewrite Z.min_l by lia. eexists _, _. reflexivity.
  - rewrite (WritePacket_loop_full _ _ b z) by done. cbv zeta.
    rewrite Z.min_r by lia.
    unfold wire_packet at 1 2. rewrite len_take by lia.
    destruct (decide _) as [_|Hne].
    + eexists _, _. reflexivity.
    + set (c1 := Conn.pushed c b z _ _).
      destruct (IH c1 _ z (drop (Z.to_nat MaxPayloadLen) data) eq_refl)
        as (rest & seq' & ->).
      { rewrite length_drop. unfold len in Hge. lia. }
      subst c1. rewrite Conn_pushed_pushed. rewrite <- !app_assoc.
      eexists _, _. reflexivity.
Qed.

Lemma SetResetOption_io_direct c b z opt :
  Conn.io c = Conn.Direct b z ->
  Conn.io (Conn.SetResetOption c opt)
  = Conn.Direct b (fmap (fun z => Compressor.SetResetOption z opt) z).
Proof.
  intros E. unfold Conn.SetResetOption. cbn [Conn.set_seqreset Conn.io].
  rewrite E. now destruct z.
Qed.

Lemma SetResetOption_seqreset c opt :
  Conn.seqreset (Conn.SetResetOption c opt) = opt.
Proof.
  unfold Conn.SetResetOption. cbn [Conn.set_seqreset Conn.io].
  destruct (Conn.io c) as [b [z|]|z]; reflexivity.
Qed.

End Sequence.

(** The payload of [2^24 - 1] zero bytes on a fresh connection: one full
    chunk, sequence counter at 1 afterwards. *)
Lemma WritePacket_exact_multiple_witness :
  exists c',
    Conn.WritePacket (zlib:=zlib_stored) (Conn.NewConn (Build_NetConn [] []))
      (replicate (Z.to_nat MaxPayloadLen) 0) = (c', None)
    /\ Conn.wire c' =
       full_chunks 1 0 (replicate (Z.to_nat MaxPayloadLen) 0)
    /\ Conn.sequence c' = 1.
Proof.
  destruct (proj1 (WritePacket_exact_multiple_no_terminator (zlib:=zlib_stored))
              (Conn.NewConn (Build_NetConn [] [])) (NewBufio (Build_NetConn [] [])) None
              0%nat (replicate (Z.to_nat MaxPayloadLen) 0) eq_refl)
    as (c' & E1 & E2 & _ & E3 & _).
  { unfold len. rewrite length_replicate, Z2Nat.id; [lia|].
    now rewrite MaxPayloadLen_eq. }
  exists c'. split; [exact E1|]. split; [exact E2|exact E3].
Defined.

(** *** The earlier revision: [writePacket] ends an exact multiple with an
    empty wire packet. *)

Lemma ConnV1_pushed_pushed p bs1 s1 bs2 s2 :
  ConnV1.pushed (ConnV1.pushed p bs1 s1) bs2 s2 = ConnV1.pushed p (bs1 ++ bs2) s2.
Proof. unfold ConnV1.pushed. cbn. now rewrite app_assoc. Qed.

Lemma writePacket_loop_done fuel p data length_ :
  length_ < MaxPayloadLen ->
  ConnV1.writePacket_loop fuel p data length_ = (p, data, length_, None).
Proof.
  intros Hl. destruct fuel; cbn [ConnV1.writePacket_loop].
  all: destruct (Z.geb_spec length_ MaxPayloadLen); [lia|reflexivity].
Qed.

Lemma writePacket_loop_step fuel p data length_ :
  MaxPayloadLen <= length_ ->
  len data = 4 + length_ ->
  ConnV1.writePacket_loop (S fuel) p data length_
  = ConnV1.writePacket_loop fuel
      (ConnV1.pushed p (wire_packet (ConnV1.sequence p)
                     (take (Z.to_nat MaxPayloadLen) (drop 4 data)))
         (incr8 (ConnV1.sequence p)))
      (drop (Z.to_nat MaxPayloadLen)
         (ConnV1.put_header data [255; 255; 255; ConnV1.sequence p]))
      (length_ - MaxPayloadLen).
Proof.
  pose proof MaxPayloadLen_eq as HM.
  intros Hl Hlen. cbn [ConnV1.writePacket_loop].
  destruct (Z.geb_spec length_ MaxPayloadLen); [|lia].
  cbn [sWrite bufio_ops].
  destruct (decide _) as [?|_]; [done|].
  assert (Et : take (Z.to_nat (4 + MaxPayloadLen))
                 (ConnV1.put_header data [255; 255; 255; ConnV1.sequence p])
               = wire_packet (ConnV1.sequence p)
                   (take (Z.to_nat MaxPayloadLen) (drop 4 data))).
  { unfold ConnV1.put_header, wire_packet.
    rewrite len_take by (change 4%nat with (Z.to_nat 4); rewrite len_drop; lia).
    rewrite writeLen3_max.
    replace (Z.to_nat (4 + MaxPayloadLen)) with (4 + Z.to_nat MaxPayloadLen)%nat by lia.
    reflexivity. }
  rewrite Et.
  destruct (decide _) as [Hn|_].
  { exfalso. apply Hn. rewrite len_wire_packet, len_take; [lia|].
    change 4%nat with (Z.to_nat 4). rewrite len_drop; lia. }
  reflexivity.
Qed.

Lemma writePacket_loop_exact (k : nat) : forall fuel p data,
  len data = 4 + Z.of_nat (S k) * MaxPayloadLen ->
  (k < fuel)%nat ->
  exists data',
    ConnV1.writePacket_loop fuel p data (Z.of_nat (S k) * MaxPayloadLen)
    = (ConnV1.pushed p (full_chunks (S k) (ConnV1.sequence p) (drop 4 data))
         ((ConnV1.sequence p + Z.of_nat (S k)) mod 256),
       data', 0, None)
    /\ length data' = 4%nat.
Proof.
  pose proof MaxPayloadLen_eq as HM.
  induction k as [|k IH]; intros fuel p data Hlen Hfuel.
  - destruct fuel as [|fuel]; [lia|].
    rewrite writePacket_loop_step by lia.
    rewrite writePacket_loop_done by lia.
    eexists. split.
    + cbn [full_chunks]. rewrite app_nil_r.
      replace (Z.of_nat 1 * MaxPayloadLen - MaxPayloadLen) with 0 by lia.
      reflexivity.
    + unfold ConnV1.put_header. rewrite length_drop, length_app, length_drop.
      unfold len in Hlen. cbn [length]. lia.
  - destruct fuel as [|fuel]; [lia|].
    rewrite writePacket_loop_step by lia.
    replace (Z.of_nat (S (S k)) * MaxPayloadLen - MaxPayloadLen)
      with (Z.of_nat (S k) * MaxPayloadLen) by lia.
    set (data1 := drop _ (ConnV1.put_header _ _)).
    assert (Hd : drop 4 data1 = drop (Z.to_nat MaxPayloadLen) (drop 4 data)).
    { subst data1. unfold ConnV1.put_header. set (d := drop 4 data).
      rewrite drop_drop.
      replace (Z.to_nat MaxPayloadLen + 4)%nat with (4 + Z.to_nat MaxPayloadLen)%nat by lia.
      rewrite <- drop_drop. reflexivity. }
    destruct (IH fuel (ConnV1.pushed p (wire_packet (ConnV1.sequence p)
                     (take (Z.to_nat MaxPayloadLen) (drop 4 data)))
         (incr8 (ConnV1.sequence p))) data1) as (data' & -> & Hd'); [|lia|].
    { subst data1. unfold ConnV1.put_header.
      unfold len in *. rewrite length_drop, length_app, length_drop.
      cbn [length]. lia. }
    exists data'. split; [|exact Hd'].
    rewrite ConnV1_pushed_pushed, Hd. cbn [ConnV1.pushed ConnV1.sequence].
    f_equal. f_equal. f_equal. unfold ConnV1.pushed. f_equal.
    unfold incr8. rewrite Zplus_mod_idemp_l. f_equal. lia.
Qed.

(** The earlier [writePacket] on the same payloads: the full chunks and
    then the empty wire packet that [WritePacket] leaves out. *)
Lemma ConnV1_writePacket_exact_multiple p hdr payload (k : nat) :
  length hdr = 4%nat ->
  len payload = Z.of_nat (S k) * MaxPayloadLen ->
  ConnV1.writePacket p (hdr ++ payload)
  = (ConnV1.pushed p
       (full_chunks (S k) (ConnV1.sequence p) payload
          ++ wire_packet ((ConnV1.sequence p + Z.of_nat (S k)) mod 256) [])
       (incr8 ((ConnV1.sequence p + Z.of_nat (S k)) mod 256)), None).
Proof.
  pose proof MaxPayloadLen_eq as HM.
  intros Hh Hp. unfold ConnV1.writePacket.
  rewrite decide_False by (rewrite length_app; lia).
  assert (Hl : len (hdr ++ payload) - 4 = Z.of_nat (S k) * MaxPayloadLen).
  { rewrite len_app. unfold len at 1. lia. }
  rewrite Hl.
  destruct (writePacket_loop_exact k (length (hdr ++ payload)) p (hdr ++ payload))
    as (data' & -> & Hd').
  { rewrite len_app. unfold len at 1. lia. }
  { rewrite length_app. unfold len in Hp. lia. }
  cbn [sWrite bufio_ops].
  destruct (decide _) as [?|_]; [done|].
  destruct (decide _) as [Hn|_]; [done|].
  rewrite drop_app_length' by lia.
  unfold ConnV1.put_header. rewrite (drop_ge data') by lia.
  cbn [ConnV1.pushed ConnV1.set_rw ConnV1.set_sequence ConnV1.rw rd wbuf out ConnV1.conn
       ConnV1.sequence ConnV1.readTimeout ConnV1.maxAllowedPacket ConnV1.accumulatedLength].
  unfold ConnV1.pushed. rewrite <- app_assoc. reflexivity.
Qed.

(** ** The framed connection: reading, and the state setters *)

(** Reduces the record projections and setters of [Conn]. *)
Ltac conn_simpl :=
  cbv beta iota zeta delta
    [Conn.io Conn.conn Conn.sequence Conn.seqreset Conn.readTimeout
     Conn.maxAllowedPacket Conn.set_io Conn.set_sequence Conn.set_seqreset].

Section Reads.
Context {zlib : Zlib}.

Lemma ReadPartialPacket_SetMaxAllowedPacket c M b :
  Conn.ReadPartialPacket (Conn.SetMaxAllowedPacket c M) b
  = let '(c', b', r) := Conn.ReadPartialPacket c b in
    (Conn.SetMaxAllowedPacket c' M, b', r).
Proof.
  destruct c as [cn i s sr rt m].
  unfold Conn.ReadPartialPacket, Conn.readFull, Conn.SetMaxAllowedPacket.
  conn_simpl.
  destruct (Conn.io_read i 4) as [i1 [head err]]. conn_simpl.
  destruct (decide (length head = 4%nat)); [|reflexivity].
  destruct (decide (Z.land sr SeqResetOnRead <> 0)); conn_simpl.
  all: case_decide; [reflexivity|]; conn_simpl.
  all: destruct (Conn.io_read i1 _) as [i2 [data err2]]; conn_simpl.
  all: case_decide; reflexivity.
Qed.

Lemma ReadPacket_loop_SetMaxAllowedPacket fuel : forall c M b,
  Conn.ReadPacket_loop fuel (Conn.SetMaxAllowedPacket c M) b
  = let '(c', b', e) := Conn.ReadPacket_loop fuel c b in
    (Conn.SetMaxAllowedPacket c' M, b', e).
Proof.
  induction fuel as [|fuel IH]; intros c M b; [reflexivity|].
  cbn [Conn.ReadPacket_loop]. rewrite ReadPartialPacket_SetMaxAllowedPacket.
  destruct (Conn.ReadPartialPacket c b) as [[c1 b1] [n [e|]]]; [reflexivity|].
  destruct (n <? MaxPayloadLen); [reflexivity|]. apply IH.
Qed.

(** C5: [ReadPacket] never consults the maximum-allowed-payload bound:
    reading on a connection whose bound was set to [M] goes exactly as on the
    connection itself.  With the bound set to 1, a wire packet of two payload
    bytes is delivered without error, where the earlier [readPacket] fails
    with the oversized-packet error. *)
Theorem ReadPacket_ignores_maxAllowedPacket :
  (forall c M b,
     Conn.ReadPacket (Conn.SetMaxAllowedPacket c M) b
     = let '(c', b', e) := Conn.ReadPacket c b in
       (Conn.SetMaxAllowedPacket c' M, b', e))
  /\ (let peer := {| incoming := [2; 0; 0; 0; 9; 8]; outgoing := [] |} in
      snd (Conn.ReadPacket (Conn.SetMaxAllowedPacket (Conn.NewConn peer) 1) []) = None
      /\ snd (fst (Conn.ReadPacket (Conn.SetMaxAllowedPacket (Conn.NewConn peer) 1) []))
         = [9; 8]
      /\ snd (ConnV1.readPacket (ConnV1.SetMaxAllowedPacket (ConnV1.NewConn peer) 1))
         = inl errNetPacketTooLarge).
Proof.
  split.
  - intros c M b. unfold Conn.ReadPacket.
    apply ReadPacket_loop_SetMaxAllowedPacket.
  - cbv zeta. repeat split; vm_compute; reflexivity.
Qed.

End Reads.

(** C4 (amended): [SetRawConn] replaces the transport and makes the reader
    and writer a fresh buffered pair over it; the sequence counter, the
    pending reset flags, the compressor field, the read timeout and the
    maximum-allowed-payload bound keep their values. *)
Theorem SetRawConn_frame (c : Conn.Conn) (conn : NetConn) :
  let c' := Conn.SetRawConn c conn in
  Conn.conn c' = conn
  /\ Conn.rw c' = Bufio (NewBufio conn)
  /\ Conn.sequence c' = Conn.sequence c
  /\ Conn.seqreset c' = Conn.seqreset c
  /\ Conn.compressor c' = Conn.compressor c
  /\ Conn.readTimeout c' = Conn.readTimeout c
  /\ Conn.maxAllowedPacket c' = Conn.maxAllowedPacket c.
Proof. cbv zeta. repeat split; reflexivity. Qed.

(** C4 as stated fails: after one packet was written the counter is 1, and
    it is still 1 after [SetRawConn]. *)
Lemma SetRawConn_resets_counterexample :
  ~ (forall (c : Conn.Conn) (conn : NetConn),
       Conn.sequence (Conn.SetRawConn c conn) = 0
       /\ forall z, Conn.compressor (Conn.SetRawConn c conn) = Some z ->
                    z = Compressor.NewCompressor (Bufio (NewBufio conn))).
Proof.
  intros Hc.
  destruct (Hc (fst (Conn.WritePacket (zlib:=zlib_stored)
                       (Conn.NewConn {| incoming := []; outgoing := [] |}) []))
               {| incoming := []; outgoing := [] |}) as [Hs _].
  vm_compute in Hs. discriminate Hs.
Qed.

(** C10: [SetResetOption c opt] makes the pending reset state of the
    connection equal to [opt] (a flag that is not in [opt] is not pending
    afterwards, whatever was pending before), sets the pending reset state of
    the compressor, when there is one, to [opt] as well, and changes nothing
    else. *)
Theorem SetResetOption_assigns (c : Conn.Conn) (opt : Z) :
  let c' := Conn.SetResetOption c opt in
  Conn.seqreset c' = opt
  /\ Conn.compressor c'
     = fmap (fun z => Compressor.set_seqreset z opt) (Conn.compressor c)
  /\ (forall z', Conn.compressor c' = Some z' -> Compressor.seqreset z' = opt)
  /\ (forall flag, Z.land opt flag = 0 -> Z.land (Conn.seqreset c') flag = 0)
  /\ Conn.sequence c' = Conn.sequence c
  /\ Conn.conn c' = Conn.conn c
  /\ Conn.maxAllowedPacket c' = Conn.maxAllowedPacket c
  /\ Conn.readTimeout c' = Conn.readTimeout c
  /\ Conn.seqreset (Conn.SetResetOption (Conn.SetResetOption c SeqResetOnRead)
                      SeqResetOnWrite) = SeqResetOnWrite.
Proof.
  cbv zeta. unfold Conn.SetResetOption, Conn.compressor.
  destruct c as [cn [b [z|]|z] s sr rt m]; cbn.
  all: repeat split; try reflexivity; try (intros ?; intros; simplify_eq; done).
Qed.

(** On the buffered pair every wire packet read takes at least its four
    header bytes off the input, so the loop of [ReadPacket] ends before its
    bound. *)
Lemma ReadPartialPacket_direct {zlib : Zlib} c bf z b :
  Conn.io c = Conn.Direct bf z ->
  exists c' bf' b' n err,
    Conn.ReadPartialPacket c b = (c', b', (n, err))
    /\ Conn.io c' = Conn.Direct bf' z
    /\ err <> Some OutOfFuel
    /\ (err = None -> (length (rd bf') + 4 <= length (rd bf))%nat).
Proof.
  destruct c as [cn i s sr rt m]. cbn [Conn.io]. intros ->.
  unfold Conn.ReadPartialPacket, Conn.readFull. conn_simpl.
  cbn [Conn.io_read sRead bufio_ops rd wbuf out].
  destruct (decide (length (take 4 (rd bf)) = 4%nat)) as [H4|H4]; conn_simpl.
  2: { eexists _, _, _, _, _. split; [reflexivity|]. split; [reflexivity|].
       split; [|discriminate].
       destruct (decide (length (rd bf) < 4)%nat); [|discriminate].
       destruct (decide _); discriminate. }
  rewrite length_take in H4.
  destruct (decide (Z.land sr SeqResetOnRead <> 0)); conn_simpl.
  all: case_decide; conn_simpl.
  all: try (eexists _, _, _, _, _; split; [reflexivity|]; split; [reflexivity|];
            split; discriminate).
  all: cbn [Conn.io_read sRead bufio_ops rd wbuf out]; conn_simpl.
  all: case_decide; eexists _, _, _, _, _; (split; [reflexivity|]);
         (split; [reflexivity|]); cbn [rd].
  all: split; [try discriminate; destruct (decide _); discriminate|].
  all: intros _; rewrite !length_drop; lia.
Qed.

Lemma ReadPacket_loop_direct_fuel {zlib : Zlib} fuel : forall c bf z b,
  Conn.io c = Conn.Direct bf z ->
  (length (rd bf) < fuel)%nat ->
  snd (Conn.ReadPacket_loop fuel c b) <> Some OutOfFuel.
Proof.
  induction fuel as [|fuel IH]; intros c bf z b E Hfuel; [lia|].
  cbn [Conn.ReadPacket_loop].
  destruct (ReadPartialPacket_direct c bf z b E)
    as (c' & bf' & b' & n & err & -> & E' & Hne & Hlen).
  destruct err as [e|]; [cbn; congruence|].
  destruct (n <? MaxPayloadLen); [discriminate|].
  apply (IH c' bf' z b' E'). specialize (Hlen eq_refl). lia.
Qed.

(** ** The compression layer *)

(** Reduces the record projections and setters of [Compressor]. *)
Ltac comp_simpl :=
  cbv beta iota zeta delta
    [Compressor.rw Compressor.sequence Compressor.seqreset Compressor.readBuffer
     Compressor.writeBuffer Compressor.flushBuffer Compressor.set_rw
     Compressor.set_readBuffer Compressor.set_writeBuffer Compressor.set_flushBuffer
     Compressor.set_sequence Compressor.set_seqreset].

Section CompressorWrite.
Context {U : Type} (ops : StreamOps U) {zlib : Zlib}.
Implicit Types c : Compressor.Compressor U.

Lemma apply_reset_writeBuffer flag c :
  Compressor.writeBuffer (Compressor.apply_reset flag c) = Compressor.writeBuffer c.
Proof. unfold Compressor.apply_reset. now destruct (decide _). Qed.

(** Whatever [Flush] returns, it leaves the pending-write buffer as it was
    or empty; after a successful [Flush] it is empty. *)
Lemma Flush_writeBuffer c :
  let '(c', err) := Compressor.Flush ops c in
  (Compressor.writeBuffer c' = [] \/ Compressor.writeBuffer c' = Compressor.writeBuffer c)
  /\ (err = None -> Compressor.writeBuffer c' = []).
Proof.
  unfold Compressor.Flush.
  pose proof (apply_reset_writeBuffer SeqResetOnWrite c) as Hw.
  destruct (Compressor.apply_reset SeqResetOnWrite c) as [u s sr rb wb fb].
  comp_simpl. cbn [Compressor.writeBuffer] in Hw. subst wb.
  destruct (len (Compressor.writeBuffer c) <? minCompressLen); comp_simpl.
  all: destruct (sWrite ops u _) as [u1 [n1 e1]]; comp_simpl.
  all: destruct (decide (n1 <> 7)); comp_simpl; [split; [now right|done]|].
  all: destruct (sWrite ops u1 _) as [u2 [n2 e2]]; comp_simpl.
  all: destruct (decide (n2 <> _)); comp_simpl; [split; [now right|done]|].
  all: destruct (sFlush ops u2) as [u3 e3]; comp_simpl.
  all: split; [now left|done].
Qed.

Lemma Write_loop_nil fuel c : Compressor.Write_loop ops fuel c [] = (c, (0, None)).
Proof. now destruct fuel. Qed.

(** No flush: the bytes fit. *)
Lemma Write_loop_fits fuel c p :
  p <> [] ->
  len (Compressor.writeBuffer c) + len p <= maxBufferLen ->
  Compressor.Write_loop ops (S fuel) c p
  = (Compressor.set_writeBuffer c (Compressor.writeBuffer c ++ p), (len p, None)).
Proof.
  intros Hp Hfit. destruct p as [|x p]; [done|].
  cbn [Compressor.Write_loop].
  destruct (Z.geb_spec (maxBufferLen - len (Compressor.writeBuffer c)) (len (x :: p)));
    [reflexivity|lia].
Qed.

(** A flush: the buffer is first filled to [maxBufferLen] bytes. *)
Lemma Write_loop_overflow fuel c p :
  len (Compressor.writeBuffer c) <= maxBufferLen ->
  maxBufferLen < len (Compressor.writeBuffer c) + len p ->
  Compressor.Write_loop ops (S fuel) c p
  = let capacity := maxBufferLen - len (Compressor.writeBuffer c) in
    let c1 := Compressor.set_writeBuffer c
                (Compressor.writeBuffer c ++ take (Z.to_nat capacity) p) in
    match Compressor.Flush ops c1 with
    | (c2, Some err) => (c2, (capacity, Some err))
    | (c2, None) => Compressor.Write_loop ops fuel c2 (drop (Z.to_nat capacity) p)
    end.
Proof.
  intros Hw Hover. destruct p as [|x p].
  { unfold len in Hover at 2. cbn in Hover. lia. }
  cbn [Compressor.Write_loop].
  destruct (Z.geb_spec (maxBufferLen - len (Compressor.writeBuffer c)) (len (x :: p)));
    [lia|].
  destruct (Z.ltb_spec (maxBufferLen - len (Compressor.writeBuffer c)) 0); [lia|].
  reflexivity.
Qed.

(** The loop bound of [Write] is never reached: more fuel changes nothing. *)
Lemma Write_loop_fuel fuel1 : forall fuel2 c p,
  len (Compressor.writeBuffer c) <= maxBufferLen ->
  (length p + (if decide (Compressor.writeBuffer c = []) then 0 else 1) < fuel1)%nat ->
  (length p + (if decide (Compressor.writeBuffer c = []) then 0 else 1) < fuel2)%nat ->
  Compressor.Write_loop ops fuel1 c p = Compressor.Write_loop ops fuel2 c p.
Proof.
  pose proof maxBufferLen_eq as HB.
  induction fuel1 as [|fuel1 IH]; intros fuel2 c p Hw H1 H2; [lia|].
  destruct fuel2 as [|fuel2]; [lia|].
  destruct p as [|x p]; [reflexivity|].
  destruct (Z.le_gt_cases (len (Compressor.writeBuffer c) + len (x :: p)) maxBufferLen).
  - now rewrite !Write_loop_fits.
  - rewrite !Write_loop_overflow by lia. cbv zeta.
    set (cap := maxBufferLen - len (Compressor.writeBuffer c)) in *.
    pose proof (Flush_writeBuffer
                  (Compressor.set_writeBuffer c
                     (Compressor.writeBuffer c ++ take (Z.to_nat cap) (x :: p)))) as HF.
    destruct (Compressor.Flush ops _) as [c2 [e|]]; [reflexivity|].
    destruct HF as [_ HF]. specialize (HF eq_refl).
    apply IH.
    + rewrite HF. unfold len. cbn. lia.
    + rewrite HF, decide_True by done. rewrite length_drop.
      destruct (decide (Compressor.writeBuffer c = [])) as [E|E].
      * subst cap. rewrite E in *. unfold len in *. cbn [length] in *. lia.
      * subst cap. unfold len in *. cbn [length] in *.
        destruct (Compressor.writeBuffer c); [done|]. cbn [length] in *. lia.
    + rewrite HF, decide_True by done. rewrite length_drop.
      destruct (decide (Compressor.writeBuffer c = [])) as [E|E].
      * subst cap. rewrite E in *. unfold len in *. cbn [length] in *. lia.
      * subst cap. unfold len in *. cbn [length] in *.
        destruct (Compressor.writeBuffer c); [done|]. cbn [length] in *. lia.
Qed.

Lemma Write_loop_bound fuel : forall c p,
  len (Compressor.writeBuffer c) <= maxBufferLen ->
  len (Compressor.writeBuffer (fst (Compressor.Write_loop ops fuel c p))) <= maxBufferLen.
Proof.
  pose proof maxBufferLen_eq as HB.
  induction fuel as [|fuel IH]; intros c p Hw.
  { destruct p; exact Hw. }
  destruct p as [|x p]; [exact Hw|].
  destruct (Z.le_gt_cases (len (Compressor.writeBuffer c) + len (x :: p)) maxBufferLen).
  - rewrite Write_loop_fits by done. cbn [fst Compressor.set_writeBuffer Compressor.writeBuffer].
    rewrite len_app. lia.
  - rewrite Write_loop_overflow by lia. cbv zeta.
    set (c1 := Compressor.set_writeBuffer c _).
    assert (H1 : len (Compressor.writeBuffer c1) = maxBufferLen).
    { subst c1. cbn [Compressor.set_writeBuffer Compressor.writeBuffer].
      rewrite len_app, len_take; [lia|]. unfold len in *. lia. }
    pose proof (Flush_writeBuffer c1) as HF.
    destruct (Compressor.Flush ops c1) as [c2 [e|]].
    + cbn [fst]. destruct HF as [[-> | ->] _]; [unfold len; cbn; lia|lia].
    + destruct HF as [_ HF]. apply IH. rewrite HF by done. unfold len. cbn. lia.
Qed.

Lemma Write_bound c p :
  len (Compressor.writeBuffer c) <= maxBufferLen ->
  len (Compressor.writeBuffer (fst (Compressor.Write ops c p))) <= maxBufferLen.
Proof. apply Write_loop_bound. Qed.

Lemma Write_fits c p :
  len (Compressor.writeBuffer c) + len p <= maxBufferLen ->
  Compressor.Write ops c p
  = (Compressor.set_writeBuffer c (Compressor.writeBuffer c ++ p), (len p, None)).
Proof.
  intros Hfit. unfold Compressor.Write. destruct p as [|x p].
  - destruct c. cbn. now rewrite app_nil_r.
  - now rewrite Write_loop_fits.
Qed.

(** C9 (amended): with at most [maxBufferLen] = [2^23 - 1] bytes pending,
    [Write] appends [p] to the pending-write buffer and does nothing else when
    the buffer stays within [2^23 - 1] bytes; otherwise it fills the buffer to
    exactly [2^23 - 1] bytes, calls [Flush], and goes on with the rest of [p].
    The buffer never holds more than [2^23 - 1] bytes afterwards, and the
    loop bound of the model is never reached. *)
Theorem Compressor_Write_autoflush c p :
  len (Compressor.writeBuffer c) <= maxBufferLen ->
  (len (Compressor.writeBuffer c) + len p <= maxBufferLen ->
   Compressor.Write ops c p
   = (Compressor.set_writeBuffer c (Compressor.writeBuffer c ++ p), (len p, None)))
  /\ (maxBufferLen < len (Compressor.writeBuffer c) + len p ->
      let capacity := maxBufferLen - len (Compressor.writeBuffer c) in
      let c1 := Compressor.set_writeBuffer c
                  (Compressor.writeBuffer c ++ take (Z.to_nat capacity) p) in
      len (Compressor.writeBuffer c1) = maxBufferLen
      /\ Compressor.Write ops c p
         = match Compressor.Flush ops c1 with
           | (c2, Some err) => (c2, (capacity, Some err))
           | (c2, None) => Compressor.Write ops c2 (drop (Z.to_nat capacity) p)
           end)
  /\ len (Compressor.writeBuffer (fst (Compressor.Write ops c p))) <= maxBufferLen
  /\ (forall fuel, (S (S (length p)) <= fuel)%nat ->
      Compressor.Write_loop ops fuel c p = Compressor.Write ops c p).
Proof.
  pose proof maxBufferLen_eq as HB.
  intros Hw. split; [|split; [|split]].
  - apply Write_fits.
  - intros Hover. cbv zeta. split.
    + cbn [Compressor.set_writeBuffer Compressor.writeBuffer].
      rewrite len_app, len_take; [lia|]. unfold len in *. lia.
    + unfold Compressor.Write at 1. rewrite Write_loop_overflow by lia. cbv zeta.
      set (c1 := Compressor.set_writeBuffer c _).
      pose proof (Flush_writeBuffer c1) as HF.
      destruct (Compressor.Flush ops c1) as [c2 [e|]]; [reflexivity|].
      destruct HF as [_ HF]. specialize (HF eq_refl).
      unfold Compressor.Write. apply Write_loop_fuel.
      * rewrite HF. unfold len. cbn. lia.
      * rewrite HF, decide_True by done. rewrite length_drop. lia.
      * rewrite HF, decide_True by done. lia.
  - apply Write_bound, Hw.
  - intros fuel Hfuel. unfold Compressor.Write. apply Write_loop_fuel; [exact Hw| |].
    all: destruct (decide _); lia.
Qed.

End CompressorWrite.

Lemma Compressor_Write_autoflush_witness :
  Compressor.Write (zlib:=zlib_stored) bufio_ops
    (Compressor.NewCompressor (mkBufio [] [] [])) [1; 2; 3]
  = (Compressor.mk (mkBufio [] [] []) 0 0 [] [1; 2; 3] [], (3, None)).
Proof.
  apply (proj1 (Compressor_Write_autoflush (zlib:=zlib_stored) bufio_ops
                  (Compressor.NewCompressor (mkBufio [] [] [])) [1; 2; 3]
                  ltac:(vm_compute; discriminate))).
  vm_compute. discriminate.
Defined.

(** C9 as stated fails: with [2^23 - 1] bytes pending, one more byte stays
    far below [2^24 - 1] and yet [Write] does not simply append it. *)
Lemma Compressor_Write_flush_threshold_counterexample :
  ~ (forall (zlib : Zlib) (c : Compressor.Compressor bufio) (p : list Z),
       len (Compressor.writeBuffer c) + len p <= 2 ^ 24 - 1 ->
       Compressor.Write bufio_ops c p
       = (Compressor.set_writeBuffer c (Compressor.writeBuffer c ++ p), (len p, None))).
Proof.
  pose proof maxBufferLen_eq as HB.
  intros Hc.
  set (c := Compressor.mk (mkBufio [] [] []) 0 0 []
              (replicate (Z.to_nat maxBufferLen) 0) []).
  assert (Hl : len (Compressor.writeBuffer c) = maxBufferLen).
  { subst c. cbn [Compressor.writeBuffer]. unfold len.
    rewrite length_replicate. lia. }
  specialize (Hc zlib_stored c [0]).
  pose proof (Write_bound (zlib:=zlib_stored) bufio_ops c [0] ltac:(lia)) as Hb.
  rewrite Hc in Hb.
  - cbn [fst Compressor.set_writeBuffer Compressor.writeBuffer] in Hb.
    rewrite len_app in Hb. unfold len in Hb at 2. cbn [length] in Hb. lia.
  - rewrite Hl. unfold len. cbn [length]. lia.
Qed.

Lemma stream_ops_at_bufio_write {zlib : Zlib} d b p :
  sWrite (stream_ops_at d) (Bufio b) p
  = (Bufio (mkBufio (rd b) (wbuf b ++ p) (out b)), (len p, None)).
Proof. destruct d; reflexivity. Qed.

Lemma stream_ops_at_bufio_flush {zlib : Zlib} d b :
  sFlush (stream_ops_at d) (Bufio b)
  = (Bufio (mkBufio (rd b) [] (out b ++ wbuf b)), None).
Proof. destruct d; reflexivity. Qed.

Lemma len_compressed_header s a b :
  len (writeLen3 a ++ [s] ++ writeLen3 b) = 7.
Proof. reflexivity. Qed.

Section Compressed.
Context {zlib : Zlib}.

(** [Flush] of a compressor that sits on the buffered pair: one frame goes
    out, literal below [minCompressLen] bytes and deflated from there on. *)
Lemma Flush_over_bufio d (z : Compressor.Compressor Stream) b :
  Compressor.rw z = Bufio b ->
  Compressor.seqreset z = 0 ->
  Compressor.Flush (stream_ops_at d) z
  = (Compressor.mk
       (Bufio (mkBufio (rd b) []
          (out b ++ wbuf b ++
             (if len (Compressor.writeBuffer z) <? minCompressLen
              then compressed_frame (Compressor.sequence z) 0 (Compressor.writeBuffer z)
              else compressed_frame (Compressor.sequence z)
                     (len (Compressor.writeBuffer z))
                     (Compressor.flushBuffer z ++ deflate (Compressor.writeBuffer z))))))
       (incr8 (Compressor.sequence z)) 0 (Compressor.readBuffer z) [] [], None).
Proof.
  destruct z as [u s sr rb wb fb]. cbn [Compressor.rw Compressor.seqreset].
  intros -> ->. unfold Compressor.Flush, Compressor.apply_reset. comp_simpl.
  rewrite decide_False by (intros Hc; apply Hc; reflexivity). comp_simpl.
  destruct (len wb <? minCompressLen); comp_simpl.
  all: rewrite stream_ops_at_bufio_write; comp_simpl.
  all: rewrite len_compressed_header, decide_False by (intros Hc; apply Hc; reflexivity).
  all: rewrite stream_ops_at_bufio_write; comp_simpl.
  all: rewrite decide_False by (intros Hc; apply Hc; reflexivity).
  all: rewrite stream_ops_at_bufio_flush; comp_simpl.
  all: cbn [rd wbuf out]; unfold compressed_frame.
  all: rewrite <- !app_assoc; reflexivity.
Qed.

(** Through a compressor with room for it, one wire packet lands in the
    pending-write buffer. *)
Lemma WritePacket_loop_through fuel c z data :
  Conn.io c = Conn.Through z ->
  len (Compressor.writeBuffer z) + 4 + len data <= maxBufferLen ->
  Conn.WritePacket_loop (S fuel) c data
  = (Conn.mk (Conn.conn c)
       (Conn.Through
          (Compressor.set_writeBuffer z
             (Compressor.writeBuffer z ++ wire_packet (Conn.sequence c) data)))
       (incr8 (Conn.sequence c)) (Conn.seqreset c) (Conn.readTimeout c)
       (Conn.maxAllowedPacket c), None).
Proof.
  pose proof maxBufferLen_eq as HB. pose proof MaxPayloadLen_eq as HM.
  intros E Hfit. cbn [Conn.WritePacket_loop].
  assert (0 <= len (Compressor.writeBuffer z)) by (unfold len; lia).
  destruct (Z.geb_spec (len data) MaxPayloadLen) as [?|_]; [lia|].
  rewrite E. cbn [Conn.io_write].
  set (head := writeLen3 (len data) ++ [Conn.sequence c]).
  assert (Hh : len head = 4) by reflexivity.
  assert (0 <= len data) by (unfold len; lia).
  rewrite (Write_fits (stream_ops_at (depth (Compressor.rw z))) z head) by lia.
  conn_simpl. rewrite Hh.
  destruct (decide _) as [[?|?]|_]; [done|done|].
  rewrite take_len, drop_len. cbn [Conn.io_write].
  set (z1 := Compressor.set_writeBuffer z _).
  assert (Hz1 : len (Compressor.writeBuffer z1) = len (Compressor.writeBuffer z) + 4).
  { subst z1. cbn [Compressor.set_writeBuffer Compressor.writeBuffer].
    rewrite len_app. lia. }
  rewrite (Write_fits (stream_ops_at (depth (Compressor.rw z1))) z1 data) by lia.
  conn_simpl.
  destruct (decide _) as [?|_]; [done|].
  destruct (decide _) as [?|_]; [done|].
  destruct (decide _) as [_|?]; [|done].
  subst z1 head. unfold wire_packet. comp_simpl. rewrite <- !app_assoc. reflexivity.
Qed.

Lemma frame_uncompressedLen_frame seq n payload rest :
  0 <= n < 2 ^ 24 ->
  frame_uncompressedLen (compressed_frame seq n payload ++ rest) = n.
Proof.
  intros Hn. unfold frame_uncompressedLen, compressed_frame.
  change (take 3 (drop 4 ((writeLen3 (len payload) ++ [seq] ++ writeLen3 n ++ payload) ++ rest)))
    with (writeLen3 n).
  now apply readLen3_writeLen3.
Qed.

(** C8 (amended): on a fresh connection with compression enabled, writing
    one packet payload and flushing emits one compressed frame that carries
    the wire packet, header included: its uncompressed-length field is 0 when
    payload plus the four header bytes stay below 128 bytes (a payload of at
    most 123 bytes), and otherwise the frame is deflated and the field is the
    payload length plus 4 (128 for a payload of 124 bytes).  This is the
    policy of [Flush]: a pending-write buffer shorter than 128 bytes goes out
    literally with 0 in the field, a longer one deflated with its length. *)
Theorem compressed_write_threshold :
  (forall (conn : NetConn) (payload : list Z),
     len payload + 4 <= maxBufferLen ->
     let c0 := Conn.EnableCompression (Conn.NewConn conn) in
     let pkt := wire_packet 0 payload in
     exists c1 c2,
       Conn.WritePacket c0 payload = (c1, None)
       /\ Conn.Flush c1 = (c2, None)
       /\ Conn.wire c2 =
          outgoing conn
            ++ (if len pkt <? minCompressLen
                then compressed_frame 0 0 pkt
                else compressed_frame 0 (len pkt) (deflate pkt))
       /\ len pkt = len payload + 4
       /\ frame_uncompressedLen (drop (length (outgoing conn)) (Conn.wire c2))
          = (if len payload + 4 <? minCompressLen then 0 else len payload + 4))
  /\ (forall d (z : Compressor.Compressor Stream) b,
        Compressor.rw z = Bufio b ->
        Compressor.seqreset z = 0 ->
        exists z',
          Compressor.Flush (stream_ops_at d) z = (z', None)
          /\ stream_wire (Compressor.rw z')
             = written b
                 ++ (if len (Compressor.writeBuffer z) <? minCompressLen
                     then compressed_frame (Compressor.sequence z) 0
                            (Compressor.writeBuffer z)
                     else compressed_frame (Compressor.sequence z)
                            (len (Compressor.writeBuffer z))
                            (Compressor.flushBuffer z
                               ++ deflate (Compressor.writeBuffer z)))).
Proof.
  pose proof maxBufferLen_eq as HB. split.
  2: { intros d z b E Hr. eexists. split; [apply Flush_over_bufio|]; [done|done|].
       cbn [Compressor.rw stream_wire]. unfold written. cbn [out wbuf].
       now rewrite app_nil_r, app_assoc. }
  intros conn payload Hfit. cbv zeta.
  assert (Hp : len (wire_packet 0 payload) = len payload + 4).
  { unfold wire_packet. rewrite !len_app. unfold len. cbn. lia. }
  assert (0 <= len payload) by (unfold len; lia).
  eexists _, _. split.
  { unfold Conn.WritePacket, Conn.EnableCompression, Conn.NewConn. conn_simpl.
    rewrite decide_False by (intros Hc; apply Hc; reflexivity).
    erewrite WritePacket_loop_through; [reflexivity|reflexivity|].
    cbn [Compressor.NewCompressor Compressor.writeBuffer]. unfold len at 1. cbn [length]. lia. }
  conn_simpl. split.
  { unfold Conn.Flush. conn_simpl. cbn [Conn.io_flush].
    erewrite Flush_over_bufio; [reflexivity|reflexivity|reflexivity]. }
  cbn [Compressor.set_writeBuffer Compressor.NewCompressor Compressor.writeBuffer
       Compressor.flushBuffer Compressor.sequence Compressor.rw app].
  unfold Conn.wire, Conn.rw. conn_simpl. cbn [stream_wire Compressor.rw Conn.rw].
  unfold written, NewBufio. cbn [out wbuf rd Conn.io]. rewrite !app_nil_r.
  split; [reflexivity|]. split; [exact Hp|].
  rewrite drop_app_length. rewrite Hp.
  destruct (len payload + 4 <? minCompressLen).
  - rewrite <- (app_nil_r (compressed_frame _ _ _)).
    apply frame_uncompressedLen_frame. lia.
  - rewrite <- (app_nil_r (compressed_frame _ _ _)).
    apply frame_uncompressedLen_frame. lia.
Qed.

End Compressed.

Lemma compressed_write_threshold_witness :
  exists c1 c2,
    Conn.WritePacket (zlib:=zlib_stored)
      (Conn.EnableCompression (Conn.NewConn {| incoming := []; outgoing := [] |}))
      (replicate 124 7) = (c1, None)
    /\ Conn.Flush (zlib:=zlib_stored) c1 = (c2, None)
    /\ frame_uncompressedLen (Conn.wire c2) = 128.
Proof.
  destruct (proj1 (compressed_write_threshold (zlib:=zlib_stored))
              {| incoming := []; outgoing := [] |} (replicate 124 7))
    as (c1 & c2 & E1 & E2 & _ & _ & E3); [vm_compute; discriminate|].
  exists c1, c2. split; [exact E1|]. split; [exact E2|exact E3].
Defined.

(** C8 as stated fails: a payload of 127 bytes makes a pending-write buffer
    of 131 bytes, which is deflated, with 131 in the uncompressed-length
    field. *)
Lemma compressed_write_127_counterexample :
  ~ (forall (zlib : Zlib) (conn : NetConn) (payload : list Z),
       len payload = 127 ->
       frame_uncompressedLen
         (drop (length (outgoing conn))
            (Conn.wire
               (fst (Conn.Flush
                       (fst (Conn.WritePacket
                               (Conn.EnableCompression (Conn.NewConn conn))
                               payload))))))
       = 0).
Proof.
  intros Hc.
  specialize (Hc zlib_stored {| incoming := []; outgoing := [] |} (replicate 127 7) eq_refl).
  vm_compute in Hc. discriminate Hc.
Qed.

(** ** Sequence numbers on the wire *)

Section SequenceNumbers.
Context {zlib : Zlib}.

(** C6: from a fresh connection, successive [WritePacket] calls with
    payloads shorter than [2^24 - 1] bytes put on the wire one packet each,
    the [i]-th with sequence byte [i mod 256]; and after [SetResetOption]
    with the on-write flag the next [WritePacket] starts with a header whose
    sequence byte is 0, on the buffered writer as well as into the pending
    buffer of a compressor that has room for the packet. *)
Theorem WritePacket_sequence_continuity :
  (forall (conn : NetConn) (payloads : list (list Z)),
     Forall (fun p => len p < MaxPayloadLen) payloads ->
     exists c',
       Conn.WritePackets (Conn.NewConn conn) payloads = (c', None)
       /\ Conn.wire c' =
          outgoing conn
            ++ concat (imap (fun i p => wire_packet (Z.of_nat i mod 256) p) payloads))
  /\ (forall c b z opt data,
        Conn.io c = Conn.Direct b z ->
        Z.land opt SeqResetOnWrite <> 0 ->
        exists c' rest,
          Conn.WritePacket (Conn.SetResetOption c opt) data = (c', None)
          /\ Conn.wire c' =
             Conn.wire c
               ++ writeLen3 (Z.min (len data) MaxPayloadLen) ++ [0] ++ rest)
  /\ (forall c z opt data,
        Conn.io c = Conn.Through z ->
        Z.land opt SeqResetOnWrite <> 0 ->
        len (Compressor.writeBuffer z) + 4 + len data <= maxBufferLen ->
        exists c' z',
          Conn.WritePacket (Conn.SetResetOption c opt) data = (c', None)
          /\ Conn.io c' = Conn.Through z'
          /\ Compressor.writeBuffer z'
             = Compressor.writeBuffer z ++ wire_packet 0 data).
Proof.
  split; [|split].
  - intros conn payloads Hall.
    destruct (WritePackets_from payloads 0 (Conn.NewConn conn) (NewBufio conn) None)
      as (c' & E1 & E2 & _); try done.
    exists c'. split; [exact E1|]. rewrite E2.
    unfold Conn.wire, Conn.rw, Conn.NewConn, written. cbn. now rewrite app_nil_r.
  - intros c b z opt data E Hopt.
    pose proof (SetResetOption_io_direct c b z opt E) as E'.
    rewrite WritePacket_unfold.
    destruct (WritePacket_loop_direct (S (length data))
                (Conn.after_reset (Conn.SetResetOption c opt)) b
                (fmap (fun z => Compressor.SetResetOption z opt) z) data)
      as (rest & seq' & ->); [now rewrite after_reset_io|lia|].
    exists (Conn.pushed (Conn.after_reset (Conn.SetResetOption c opt)) b
              (fmap (fun z => Compressor.SetResetOption z opt) z)
              (writeLen3 (Z.min (len data) MaxPayloadLen)
                 ++ [Conn.sequence (Conn.after_reset (Conn.SetResetOption c opt))] ++ rest)
              seq'), rest.
    split; [reflexivity|].
    rewrite wire_pushed by now rewrite after_reset_io.
    rewrite after_reset_wire, after_reset_sequence.
    unfold Conn.write_seq. rewrite SetResetOption_seqreset, decide_True by done.
    f_equal. unfold Conn.wire, Conn.rw. now rewrite E, E'.
- intros c z opt data E Hopt Hfit.
    assert (E' : Conn.io (Conn.after_reset (Conn.SetResetOption c opt))
                 = Conn.Through (Compressor.SetResetOption z opt)).
    { rewrite after_reset_io. unfold Conn.SetResetOption.
      cbn [Conn.set_seqreset Conn.io]. now rewrite E. }
    rewrite WritePacket_unfold.
    rewrite (WritePacket_loop_through _ _ _ _ E') by exact Hfit.
    eexists _, _. split; [reflexivity|]. split; [reflexivity|].
    cbn [Compressor.set_writeBuffer Compressor.writeBuffer Compressor.SetResetOption
         Compressor.set_seqreset].
    rewrite after_reset_sequence. unfold Conn.write_seq.
    rewrite SetResetOption_seqreset, decide_True by done. reflexivity.
Qed.

End SequenceNumbers.

Lemma WritePacket_sequence_continuity_witness :
  exists c',
    Conn.WritePackets (zlib:=zlib_stored)
      (Conn.NewConn {| incoming := []; outgoing := [] |}) [[7]; []; [8; 9]]
    = (c', None)
    /\ Conn.wire c' = [1; 0; 0; 0; 7] ++ [0; 0; 0; 1] ++ [2; 0; 0; 2; 8; 9].
Proof.
  destruct (proj1 (WritePacket_sequence_continuity (zlib:=zlib_stored))
              {| incoming := []; outgoing := [] |} [[7]; []; [8; 9]])
    as (c' & E1 & E2).
  { repeat constructor. }
  exists c'. split; [exact E1|exact E2].
Defined.

(** ** The gateway package: routing *)

Section Routing.
Local Open Scope string_scope.
Context {U : unicode.Tables}.

Lemma code_range a : 0 <= code a < 256.
Proof.
  unfold code. pose proof (N_ascii_bounded a). lia.
Qed.

(** The width that [DecodeRuneInString] reports on a string that is not
    empty is between 1 and 4. *)
Lemma DecodeRuneInString_size a s :
  (1 <= snd (utf8.DecodeRuneInString (String a s)) <= 4)%nat.
Proof.
  unfold utf8.DecodeRuneInString.
  assert (E : (Z.of_nat (String.length (String a s)) <? 1)%Z = false).
  { apply Z.ltb_ge. cbn [String.length]. lia. }
  rewrite E. cbv zeta.
  destruct (utf8.acceptRanges _) as [lo hi].
  repeat match goal with
         | |- context [if ?c then _ else _] => destruct c
         end; cbn [snd]; lia.
Qed.

Lemma skip_length n s : (String.length (skip n s) <= String.length s)%nat.
Proof.
  revert s. induction n as [|n IH]; intros [|a s]; cbn [skip String.length]; try lia.
  specialize (IH s). lia.
Qed.

(** Every iteration of [EqualFold] takes at least one byte off a string. *)
Lemma next_rune_length a s :
  (String.length (snd (strings.next_rune (String a s))) <= String.length s)%nat.
Proof.
  cbn [strings.next_rune]. destruct (code a <? utf8.RuneSelf)%Z; [cbn; lia|].
  pose proof (DecodeRuneInString_size a s) as Hsz.
  destruct (utf8.DecodeRuneInString (String a s)) as [r size]. cbn [snd] in *.
  destruct size as [|size]; [lia|]. cbn [skip]. apply skip_length.
Qed.

(** The length of the first string is enough fuel for the loop. *)
Lemma EqualFold_loop_fuel : forall n m s t,
  (String.length s <= n)%nat -> (String.length s <= m)%nat ->
  strings.EqualFold_loop n s t = strings.EqualFold_loop m s t.
Proof.
  induction n as [|n IH]; intros m [|a s] [|b t] Hn Hm; try reflexivity;
    cbn [String.length] in Hn, Hm; try lia.
  all: destruct m as [|m]; try reflexivity; try lia.
  cbn [strings.EqualFold_loop].
  pose proof (next_rune_length a s) as Hl.
  destruct (strings.next_rune (String a s)) as [sr s'].
  destruct (strings.next_rune (String b t)) as [tr t']. cbn [snd] in Hl.
  destruct (strings.fold_eqb sr tr); [|reflexivity].
  apply IH; lia.
Qed.

Lemma EqualFold_unfold a s b t :
  strings.EqualFold (String a s) (String b t)
  = let '(sr, s') := strings.next_rune (String a s) in
    let '(tr, t') := strings.next_rune (String b t) in
    if strings.fold_eqb sr tr then strings.EqualFold s' t' else false.
Proof.
  unfold strings.EqualFold at 1. cbn [String.length strings.EqualFold_loop].
  pose proof (next_rune_length a s) as Hl.
  destruct (strings.next_rune (String a s)) as [sr s'].
  destruct (strings.next_rune (String b t)) as [tr t']. cbn [snd] in Hl.
  destruct (strings.fold_eqb sr tr); [|reflexivity].
  apply EqualFold_loop_fuel; lia.
Qed.

(** On a table whose orbits close, the loop over an orbit ends by its own
    condition: at [sr], or at a rune that is not below [tr]. *)
Lemma SimpleFold_loop_exit sr tr : forall fuel r,
  (exists n, (n <= fuel)%nat /\ Nat.iter n unicode.SimpleFold r = sr) ->
  let r' := unicode.SimpleFold_loop fuel sr tr r in
  r' = sr \/ tr <= r'.
Proof.
  induction fuel as [|fuel IH]; intros r (n & Hn & E); cbn [unicode.SimpleFold_loop].
  - assert (n = 0%nat) as -> by lia. cbn in E. subst r.
    rewrite Z.eqb_refl. cbn. now left.
  - destruct (Z.eqb_spec r sr) as [->|Hne]; [cbn; now left|].
    destruct (Z.ltb_spec r tr) as [Hlt|Hge]; [|cbn; now right].
    cbn [negb andb]. apply IH.
    destruct n as [|n]; [cbn in E; contradiction|].
    exists n. split; [lia|]. now rewrite <- Nat.iter_succ_r.
Qed.

Lemma SimpleFold_loop_total sr tr :
  unicode.orbits_close ->
  let r := unicode.SimpleFold_loop unicode.orbit_max sr tr (unicode.SimpleFold sr) in
  r = sr \/ tr <= r.
Proof.
  intros Hc. apply SimpleFold_loop_exit.
  destruct (Hc sr) as (n & Hn & E). exists n. split; [exact Hn|].
  now rewrite <- Nat.iter_succ_r.
Qed.

Lemma fold_eqb_lower a b :
  code a < utf8.RuneSelf -> code b < utf8.RuneSelf ->
  strings.fold_eqb (code a) (code b) = true
  <-> strings.lower_code a = strings.lower_code b.
Proof.
  unfold strings.fold_eqb, strings.lower_code, utf8.RuneSelf. intros Ha Hb.
  pose proof (code_range a). pose proof (code_range b).
  destruct (Z.eqb_spec (code b) (code a)) as [->|Hne].
  { split; reflexivity. }
  destruct (Z.ltb_spec (code b) (code a)); cbv beta iota zeta.
  all: match goal with
       | |- context [(?x <? 128)%Z] => destruct (Z.ltb_spec x 128); [|lia]
       end.
  all: repeat match goal with
       | |- context [(?x <=? ?y)%Z] => destruct (Z.leb_spec x y)
       | |- context [(?x =? ?y)%Z] => destruct (Z.eqb_spec x y)
       end; cbn [andb]; split; intros; try discriminate; try reflexivity; try lia.
Qed.

(** Where both strings start with a byte below [utf8.RuneSelf], an
    iteration compares the two bytes and goes on with the rest. *)
Lemma EqualFold_ascii_step a s b t :
  code a < utf8.RuneSelf -> code b < utf8.RuneSelf ->
  strings.EqualFold (String a s) (String b t)
  = strings.fold_eqb (code a) (code b) && strings.EqualFold s t.
Proof.
  intros Ha Hb. apply Z.ltb_lt in Ha, Hb.
  rewrite EqualFold_unfold. cbn [strings.next_rune]. rewrite Ha, Hb.
  now destruct (strings.fold_eqb (code a) (code b)).
Qed.

Lemma EqualFold_lower s : forall t,
  strings.is_ascii s = true -> strings.is_ascii t = true ->
  strings.EqualFold s t = true <-> strings.lower_codes s = strings.lower_codes t.
Proof.
  induction s as [|a s IH]; intros [|b t] Hs Ht;
    try (split; [reflexivity|]; reflexivity);
    try (cbn; split; discriminate).
  cbn [strings.is_ascii] in Hs, Ht.
  apply andb_true_iff in Hs as [Ha Hs]. apply andb_true_iff in Ht as [Hb Ht].
  apply Z.ltb_lt in Ha, Hb.
  rewrite (EqualFold_ascii_step a s b t Ha Hb), andb_true_iff.
  rewrite (fold_eqb_lower a b Ha Hb), (IH t Hs Ht). cbn [strings.lower_codes].
  split.
  - intros [-> ->]. reflexivity.
  - intros E. injection E. auto.
Qed.

(** The Kelvin sign U+212A in UTF-8, followed by ["8s"]. *)
Lemma EqualFold_kelvin :
  unicode.SimpleFold 107 = 8490 ->
  strings.EqualFold "k8s" (String "226" (String "132" (String "170" "8s"))) = true.
Proof.
  intros E.
  assert (Ef : strings.fold_eqb 107 8490 = true).
  { unfold strings.fold_eqb.
    change (8490 =? 107)%Z with false. change (8490 <? 107)%Z with false.
    change (8490 <? utf8.RuneSelf)%Z with false. cbv beta iota zeta. rewrite E.
    destruct unicode.orbit_max; reflexivity. }
  rewrite EqualFold_unfold.
  change (strings.next_rune "k8s") with (107, "8s").
  change (strings.next_rune (String "226" (String "132" (String "170" "8s"))))
    with (8490, "8s").
  cbv beta iota zeta. rewrite Ef. reflexivity.
Qed.

Lemma cut_none sep s : strings.has_byte sep s = false -> strings.cut sep s = None.
Proof.
  induction s as [|a s IH]; cbn; [reflexivity|].
  destruct (Ascii.eqb a sep); cbn; [discriminate|].
  intros E. now rewrite IH.
Qed.

Lemma append_nil_l (s : string) : "" ++ s = s.
Proof. reflexivity. Qed.
Lemma append_cons (x : ascii) (a s : string) : String x a ++ s = String x (a ++ s).
Proof. reflexivity. Qed.

Lemma cut_first sep a b :
  strings.has_byte sep a = false ->
  strings.cut sep (a ++ String sep b) = Some (a, b).
Proof.
  induction a as [|x a IH]; cbn [strings.has_byte].
  - intros _. rewrite append_nil_l. cbn. now rewrite Ascii.eqb_refl.
  - rewrite append_cons. cbn [strings.cut].
    destruct (Ascii.eqb x sep); cbn; [discriminate|].
    intros E. now rewrite IH.
Qed.

Lemma Find_absent b id :
  (forall c, In c b -> strings.EqualFold (Gateway.ClusterID c) id = false) ->
  Gateway.Find b id = id.
Proof.
  induction b as [|c b IH]; intros Hno; [reflexivity|]. cbn.
  rewrite (Hno c) by now left. apply IH. intros c' Hc'. apply Hno. now right.
Qed.

Lemma Find_first b1 c b2 id :
  (forall c', In c' b1 -> strings.EqualFold (Gateway.ClusterID c') id = false) ->
  strings.EqualFold (Gateway.ClusterID c) id = true ->
  Gateway.Find (b1 ++ c :: b2)%list id = Gateway.Address c.
Proof.
  induction b1 as [|c1 b1 IH]; intros Hno Hc; cbn.
  - now rewrite Hc.
  - rewrite (Hno c1) by now left. apply IH; [|exact Hc].
    intros c' Hc'. apply Hno. now right.
Qed.

Lemma digits_spec d :
  regexp.digits d = true <-> d <> "" /\ regexp.all_digits d = true.
Proof.
  induction d as [|a d IH]; cbn.
  - split; [discriminate|]. intros [Hc _]. now contradiction Hc.
  - destruct d as [|b d].
    + cbn. rewrite andb_true_r. split; [intros ->; split; [discriminate|reflexivity]|].
      now intros [_ ->].
    + rewrite andb_true_iff, IH. split.
      * intros [-> [_ E]]. split; [discriminate|]. cbn in *. exact E.
      * intros [_ E]. apply andb_true_iff in E as [-> E]. repeat split; [discriminate|exact E].
Qed.

Lemma MatchPortSuffix_spec s :
  regexp.MatchPortSuffix s = true
  <-> exists p d, s = p ++ ":" ++ d /\ regexp.digits d = true.
Proof.
  induction s as [|a s IH].
  - cbn. split; [discriminate|]. intros (p & d & E & _).
    destruct p; [rewrite append_nil_l, append_cons in E|rewrite append_cons in E];
      discriminate.
  - cbn [regexp.MatchPortSuffix]. rewrite orb_true_iff, andb_true_iff, IH. split.
    + intros [[Ea Ed]|(p & d & -> & Hd)].
      * apply Ascii.eqb_eq in Ea as ->. now exists "", s.
      * now exists (String a p), d.
    + intros (p & d & E & Hd). destruct p as [|x p].
      * rewrite append_nil_l, append_cons, append_nil_l in E.
        injection E as -> ->. left. now rewrite Ascii.eqb_refl.
      * rewrite append_cons in E. injection E as -> ->. right. now exists p, d.
Qed.

Lemma getBackendAddr_unfold conf res :
  Gateway.getBackendAddr conf res
  = match strings.cut "." (UserName res) with
    | None =>
        (Gateway.with_default_port (Gateway.Find (Gateway.backendConfigs conf) (UserName res)),
         set_UserName res "")
    | Some (a, b) =>
        (Gateway.with_default_port (Gateway.Find (Gateway.backendConfigs conf) a),
         set_UserName res b)
    end.
Proof.
  unfold Gateway.getBackendAddr, strings.SplitN2.
  destruct (strings.cut "." (UserName res)) as [[a b]|]; reflexivity.
Qed.

(** C2: [getBackendAddr] splits the user name at its first ['.'] (the part
    before it is the cluster identifier and the part after it the forwarded
    user name; a name without ['.'] is the cluster identifier, with an empty
    user name), resolves the identifier to the address of the first directory
    entry that [strings.EqualFold] matches with it, or to the identifier
    itself when no entry matches, and appends [":4000"] unless the address
    ends in a colon followed by one or more digits.  The match is
    case-insensitive: on ASCII text two names match exactly when they are
    equal up to the case of their letters, and beyond ASCII runes match under
    Unicode simple folding, whatever the case tables are (with the orbit of
    [k] as in Unicode, the Kelvin sign U+212A matches [k]). *)
Theorem getBackendAddr_routing :
  (forall conf res,
     strings.has_byte "." (UserName res) = false ->
     Gateway.getBackendAddr conf res
     = (Gateway.with_default_port (Gateway.Find (Gateway.backendConfigs conf) (UserName res)),
        set_UserName res ""))
  /\ (forall conf res a b,
        UserName res = a ++ "." ++ b ->
        strings.has_byte "." a = false ->
        Gateway.getBackendAddr conf res
        = (Gateway.with_default_port (Gateway.Find (Gateway.backendConfigs conf) a),
           set_UserName res b))
  /\ (forall b id,
        (forall c, In c b -> strings.EqualFold (Gateway.ClusterID c) id = false) ->
        Gateway.Find b id = id)
  /\ (forall b1 c b2 id,
        (forall c', In c' b1 -> strings.EqualFold (Gateway.ClusterID c') id = false) ->
        strings.EqualFold (Gateway.ClusterID c) id = true ->
        Gateway.Find (b1 ++ c :: b2)%list id = Gateway.Address c)
  /\ (forall s t,
        strings.is_ascii s = true -> strings.is_ascii t = true ->
        (strings.EqualFold s t = true <-> strings.lower_codes s = strings.lower_codes t))
  /\ (unicode.SimpleFold 107 = 8490 ->
      let kelvin8s := String "226" (String "132" (String "170" "8s")) in
      strings.EqualFold "k8s" kelvin8s = true
      /\ strings.lower_codes "k8s" <> strings.lower_codes kelvin8s
      /\ forall addr, Gateway.Find [Gateway.mkBackendConfig "k8s" addr] kelvin8s = addr)
  /\ (forall addr,
        (exists p d, addr = p ++ ":" ++ d /\ d <> "" /\ regexp.all_digits d = true)
        -> Gateway.with_default_port addr = addr)
  /\ (forall addr,
        ~ (exists p d, addr = p ++ ":" ++ d /\ d <> "" /\ regexp.all_digits d = true)
        -> Gateway.with_default_port addr = addr ++ ":4000")
  /\ (forall res,
        let conf := Gateway.mkConfig [Gateway.mkBackendConfig "c1" "10.0.0.1"] false false in
        Gateway.getBackendAddr conf (set_UserName res "c1.alice")
        = ("10.0.0.1:4000", set_UserName res "alice")
        /\ Gateway.getBackendAddr conf (set_UserName res "C1.alice")
           = ("10.0.0.1:4000", set_UserName res "alice")
        /\ Gateway.getBackendAddr conf (set_UserName res "alice")
           = ("alice:4000", set_UserName res "")
        /\ Gateway.getBackendAddr conf (set_UserName res "c2.bob")
           = ("c2:4000", set_UserName res "bob"))
  /\ (forall res,
        let conf := Gateway.mkConfig [Gateway.mkBackendConfig "c1" "10.0.0.1:5000"] false false in
        Gateway.getBackendAddr conf (set_UserName res "c1.alice")
        = ("10.0.0.1:5000", set_UserName res "alice")).
Proof.
  split; [|split; [|split; [|split; [|split; [|split; [|split; [|split; [|split]]]]]]]].
  - intros conf res Hno. rewrite getBackendAddr_unfold. now rewrite cut_none.
  - intros conf res a b E Hno. rewrite getBackendAddr_unfold, E.
    rewrite append_cons, append_nil_l. now rewrite cut_first.
  - apply Find_absent.
  - apply Find_first.
  - intros s t. apply EqualFold_lower.
  - intros E. cbv zeta. pose proof (EqualFold_kelvin E) as Ek.
    split; [exact Ek|split; [discriminate|]].
    intros addr. cbn [Gateway.Find Gateway.ClusterID Gateway.Address].
    now rewrite Ek.
  - intros addr (p & d & E & Hd & Hall). unfold Gateway.with_default_port.
    assert (Hm : regexp.MatchPortSuffix addr = true).
    { apply MatchPortSuffix_spec. exists p, d. split; [exact E|].
      now apply digits_spec. }
    now rewrite Hm.
  - intros addr Hno. unfold Gateway.with_default_port.
    destruct (regexp.MatchPortSuffix addr) eqn:Hm; [|reflexivity].
    exfalso. apply Hno. apply MatchPortSuffix_spec in Hm as (p & d & E & Hd).
    apply digits_spec in Hd as [Hd1 Hd2]. now exists p, d.
  - intros res. cbv zeta. repeat split; reflexivity.
  - intros res. reflexivity.
Qed.

End Routing.

Lemma getBackendAddr_routing_witness :
  Gateway.getBackendAddr (U:=unicode.ascii_orbits)
    (Gateway.mkConfig [Gateway.mkBackendConfig "c1" "10.0.0.1"] false false)
    (mkHandshakeResponse 0 0 0 "c1.alice" "" [] "" ∅)
  = ("10.0.0.1:4000"%string, mkHandshakeResponse 0 0 0 "alice" "" [] "" ∅)
  /\ Gateway.Find (U:=unicode.ascii_orbits)
       [Gateway.mkBackendConfig "k8s" "10.0.0.2"]
       (String "226" (String "132" (String "170" "8s")))
     = "10.0.0.2"%string.
Proof.
  destruct (getBackendAddr_routing (U:=unicode.ascii_orbits))
    as (_ & H2 & _ & _ & _ & Hk & _).
  split.
  - rewrite (H2 (Gateway.mkConfig [Gateway.mkBackendConfig "c1" "10.0.0.1"] false false)
                (mkHandshakeResponse 0 0 0 "c1.alice" "" [] "" ∅) "c1"%string "alice"%string)
      by reflexivity.
    reflexivity.
  - apply (Hk eq_refl).
Defined.


(** ** The gateway package: the forwarded handshake response *)

Lemma testbit_clear_flag32 x i n :
  0 <= i < 32 -> 0 <= x < 2 ^ 32 -> 0 <= n ->
  Z.testbit (Gateway.clear_flag32 x (2 ^ i)) n
  = if n =? i then false else Z.testbit x n.
Proof.
  intros Hi Hx Hn. unfold Gateway.clear_flag32.
  rewrite Z.land_spec, Z.lxor_spec, Z.pow2_bits_eqb by lia.
  change 4294967295 with (Z.ones 32).
  destruct (Z.eqb_spec n i) as [->|Hne].
  - rewrite Z.eqb_refl, Z.ones_spec_low by lia. cbn. apply andb_false_r.
  - destruct (Z.eqb_spec i n); [lia|]. cbn [xorb].
    destruct (Z.lt_ge_cases n 32).
    + rewrite Z.ones_spec_low by lia. apply andb_true_r.
    + rewrite Z.ones_spec_high by lia. rewrite andb_false_r.
      symmetry. destruct (Z.eq_dec x 0) as [->|]; [apply Z.bits_0|].
      apply Z.bits_above_log2; [lia|].
      assert (Z.log2 x < 32) by (apply Z.log2_lt_pow2; lia). lia.
Qed.

Lemma clear_flag32_range x f : 0 <= x < 2 ^ 32 -> 0 <= f ->
  0 <= Gateway.clear_flag32 x f < 2 ^ 32.
Proof.
  intros Hx Hf. unfold Gateway.clear_flag32.
  assert (0 <= Z.land x (Z.lxor f 4294967295)) by (apply Z.land_nonneg; lia).
  split; [assumption|].
  destruct (Z.eq_dec (Z.land x (Z.lxor f 4294967295)) 0) as [->|Hne]; [lia|].
  apply Z.log2_lt_pow2; [lia|].
  destruct (Z.eq_dec x 0) as [->|]; [rewrite Z.land_0_l in Hne; lia|].
  assert (Z.log2 x < 32) by (apply Z.log2_lt_pow2; lia).
  pose proof (Z.log2_land x (Z.lxor f 4294967295) ltac:(lia)
                ltac:(apply Z.lxor_nonneg; lia)).
  lia.
Qed.

Lemma lor_pow2_range x k : 0 <= x < 2 ^ 32 -> 0 <= k < 32 ->
  0 <= Z.lor x (2 ^ k) < 2 ^ 32.
Proof.
  intros Hx Hk.
  assert (0 <= Z.lor x (2 ^ k)) by (apply Z.lor_nonneg; lia).
  split; [assumption|].
  apply Z.log2_lt_pow2; [|rewrite Z.log2_lor by lia].
  - assert (0 < 2 ^ k) by lia.
    destruct (Z.eq_dec (Z.lor x (2 ^ k)) 0) as [E|]; [|lia].
    apply Z.lor_eq_0_iff in E. lia.
  - rewrite Z.log2_pow2 by lia.
    destruct (Z.eq_dec x 0) as [->|]; [cbn; lia|].
    assert (Z.log2 x < 32) by (apply Z.log2_lt_pow2; lia). lia.
Qed.

Section Forwarded.
Context {U : unicode.Tables}.

(** C3: between routing and [SendPacket], [handleConn] changes the decoded
    response in exactly these ways: the Compress bit is cleared; the
    SecureConnection bit is cleared when the backend transport is configured
    insecure and kept otherwise; the PluginAuth bit is set; every other
    capability bit is kept; the plugin name becomes [AuthInvalidMethod]; all
    other fields, the user name as [getBackendAddr] left it among them, are
    kept.  The three flags are distinct single bits of the 32-bit mask. *)
Theorem handleConn_rewrite_mutations
    (ClientCompress ClientSecureConnection ClientPluginAuth : Z)
    (AuthInvalidMethod : string) (i j k : Z)
    (conf : Gateway.Config) (res : HandshakeResponse) :
  0 <= i < 32 -> 0 <= j < 32 -> 0 <= k < 32 ->
  i <> j -> i <> k -> j <> k ->
  ClientCompress = 2 ^ i ->
  ClientSecureConnection = 2 ^ j ->
  ClientPluginAuth = 2 ^ k ->
  0 <= Capability res < 2 ^ 32 ->
  let res' := Gateway.handleConn_rewrite ClientCompress ClientSecureConnection
                ClientPluginAuth AuthInvalidMethod conf res in
  (forall n, 0 <= n ->
     Z.testbit (Capability res') n =
     if n =? i then false
     else if n =? j
          then (if Gateway.BackendInsecureTransport conf then false
                else Z.testbit (Capability res) n)
     else if n =? k then true
     else Z.testbit (Capability res) n)
  /\ 0 <= Capability res' < 2 ^ 32
  /\ AuthPlugin res' = AuthInvalidMethod
  /\ MaxPacketSize res' = MaxPacketSize res
  /\ CharacterSet res' = CharacterSet res
  /\ UserName res' = UserName res
  /\ DBName res' = DBName res
  /\ Auth res' = Auth res
  /\ Attrs res' = Attrs res
  /\ snd (Gateway.handleConn_forward ClientCompress ClientSecureConnection
            ClientPluginAuth AuthInvalidMethod conf res)
     = Gateway.handleConn_rewrite ClientCompress ClientSecureConnection
         ClientPluginAuth AuthInvalidMethod conf
         (snd (Gateway.getBackendAddr conf res)).
Proof.
  intros Hi Hj Hk Hij Hik Hjk -> -> -> Hcap. cbv zeta.
  unfold Gateway.handleConn_rewrite.
  destruct res as [cap mps cs un db au ap at_]. cbn [Capability] in Hcap.
  cbn [Gateway.set_Capability Gateway.set_AuthPlugin Capability MaxPacketSize
       CharacterSet UserName DBName Auth AuthPlugin Attrs].
  pose proof (clear_flag32_range cap (2 ^ i) Hcap ltac:(lia)) as Hc1.
  split; [|split].
  - intros n Hn.
    destruct (Gateway.BackendInsecureTransport conf);
      cbn [Gateway.set_Capability Capability].
    + rewrite Z.lor_spec, !testbit_clear_flag32, Z.pow2_bits_eqb by (auto; lia).
      destruct (Z.eqb_spec n i), (Z.eqb_spec n j), (Z.eqb_spec k n), (Z.eqb_spec n k);
        try lia; cbn; try reflexivity; apply orb_false_r.
    + rewrite Z.lor_spec, !testbit_clear_flag32, Z.pow2_bits_eqb by (auto; lia).
      destruct (Z.eqb_spec n i), (Z.eqb_spec n j), (Z.eqb_spec k n), (Z.eqb_spec n k);
        try lia; cbn; try reflexivity; try apply orb_false_r; apply orb_true_r.
  - destruct (Gateway.BackendInsecureTransport conf);
      cbn [Gateway.set_Capability Capability].
    + apply lor_pow2_range; [|lia]. apply clear_flag32_range; [assumption|lia].
    + apply lor_pow2_range; [assumption|lia].
  - repeat split.
    all: try (destruct (Gateway.BackendInsecureTransport conf); reflexivity).
    unfold Gateway.handleConn_forward.
    destruct (Gateway.getBackendAddr conf _) as [addr r]. reflexivity.
Qed.

End Forwarded.

Lemma handleConn_rewrite_mutations_witness :
  let res := mkHandshakeResponse 42669 16777216 33 "root" "test" [1; 2] "mysql_native_password" ∅ in
  let res' := Gateway.handleConn_rewrite 32 32768 524288 "auth_unknown_plugin"
                (Gateway.mkConfig [] true true) res in
  Z.testbit (Capability res') 5 = false
  /\ Z.testbit (Capability res') 15 = false
  /\ Z.testbit (Capability res') 19 = true
  /\ AuthPlugin res' = "auth_unknown_plugin"%string.
Proof.
  cbv zeta.
  destruct (handleConn_rewrite_mutations (U:=unicode.ascii_orbits)
              32 32768 524288 "auth_unknown_plugin" 5 15 19
              (Gateway.mkConfig [] true true)
              (mkHandshakeResponse 42669 16777216 33 "root" "test" [1; 2]
                 "mysql_native_password" ∅))
    as (Hbits & _ & Hp & _); try reflexivity; try lia; try (cbn; lia).
  split; [|split; [|split]].
  - apply (Hbits 5). lia.
  - apply (Hbits 15). lia.
  - apply (Hbits 19). lia.
  - exact Hp.
Defined.
